(** * 3Dphys-boilerplate: the engine glue and the demo scene

    A shallow embedding of [app/lib/util.js], of the [Engine] class and of
    the scene script that drives it, with the properties of the random
    parameter generator, of the per-frame physics-to-graphics sync and of
    the keyboard-driven object lifecycle.

    Modelling conventions.
    - A JavaScript number is a rational ([Q]).  The scene is modelled
      with exact arithmetic; the rounding of IEEE doubles is modelled in
      [Rounded], where every operation of the random generators rounds its
      result, and bounds on generated numbers are proved there, for every
      rounding.  [Binary64] replays single computations on binary64
      numbers.  Equalities between computed numbers are stated with [==]
      where the two sides are different expressions.
    - [Math.random()] reads an oracle [random : nat -> Q]; the state of the
      generator is the number of draws consumed so far.
    - three.js and Ammo are external collaborators.  A mesh is a record
      carrying its object identity, a physics body lives in the physics
      engine's memory under its pointer, the scene graph is the list of
      the identities of its children and the dynamics world is the set of
      registered body pointers.
    - Methods of [Engine] are state transformers over [Engine]; the scene
      script's closure variables ([E], [floorIsShowing], [intervalRef])
      and the generator state form the record [App].  The page's events
      (key presses, animation frames, ticks of the auto-spawn timer) are
      handled one at a time, each to completion.
    - The info panel is a list of readout paragraphs; a method that
      can throw returns an [option].
    - Not embedded: the camera, the renderer's set-up and the resize
      handler, which only pass values on to three.js and to the page. *)

From Corelib Require PrimFloat.
From Stdlib Require Import QArith Qround Lqa ZArith Lia.
From stdpp Require Import base option list strings gmap.

Local Open Scope Q_scope.

(** ** A small state monad *)

Definition State (S A : Type) : Type := S -> A * S.

Definition ret {S A} (a : A) : State S A := fun s => (a, s).

Definition bind {S A B} (m : State S A) (k : A -> State S B) : State S B :=
  fun s => let '(a, s') := m s in k a s'.

Definition get {S} : State S S := fun s => (s, s).
Definition modify {S} (f : S -> S) : State S unit := fun s => (tt, f s).
Definition exec {S A} (m : State S A) (s : S) : S := snd (m s).
Definition eval {S A} (m : State S A) (s : S) : A := fst (m s).

Notation "'let*' x := m 'in' k" := (bind m (fun x => k))
  (at level 10, x binder, m at level 100, k at level 200, only parsing).
Notation "'do' m 'then' k" := (bind m (fun _ => k))
  (at level 10, m at level 100, k at level 200, only parsing).

(** Running a computation on one component of a larger state. *)
Definition zoom {S T A} (proj : S -> T) (inj : T -> S -> S)
    (m : State T A) : State S A :=
  fun s => let '(a, t) := m (proj s) in (a, inj t s).

(** [Array.prototype.forEach]: the callback receives the element and its
    index; the array itself is not changed by any loop of this program. *)
Fixpoint forEach_from {S A} (l : list A) (i : nat)
    (f : A -> nat -> State S unit) : State S unit :=
  match l with
  | [] => ret tt
  | x :: l' => bind (f x i) (fun _ => forEach_from l' (Datatypes.S i) f)
  end.

Definition forEach {S A} (l : list A) (f : A -> nat -> State S unit)
    : State S unit :=
  forEach_from l 0%nat f.

(** ** app/lib/util.js *)

Module Util.
Section Random.

(** The outcomes of successive [Math.random()] calls. *)
Variable random : nat -> Q.

(** [Math.random()]: the next outcome; one draw is consumed. *)
Definition Math_random : State nat Q := fun n => (random n, S n).

(** [Math.floor] of a number, as a number. *)
Definition Math_floor (x : Q) : Q := inject_Z (Qfloor x).

(** [randomInt = (max, min = 0) => min + Math.floor(Math.random() * max)];
    a call that leaves [min] out is written with [min = 0]. *)
Definition randomInt (max min : Q) : State nat Q :=
  let* r := Math_random in ret (min + Math_floor (r * max)).

(** [randomFloat = (max, min = 0) => min + (Math.random() * max)], in
    exact arithmetic; [Rounded.randomFloat] is the same with each operation
    rounded. *)
Definition randomFloat (max min : Q) : State nat Q :=
  let* r := Math_random in ret (min + (r * max)).

(** [random8BitColor = () => Math.random() * 0xffffff] *)
Definition random8BitColor : State nat Q :=
  let* r := Math_random in ret (r * 16777215).

End Random.
End Util.

(** The same [randomFloat] on IEEE binary64 numbers, to replay a computation
    of the rational model with the rounding of the real program. *)
Module Binary64.
Import PrimFloat.

Definition randomFloat (max min r : float) : float := (min + r * max)%float.

(** [randomMass] of [generateRandomObjectParams] when the draw for the
    scale is [u] and the draw for the mass is [v]. *)
Definition randomMass (u v : float) : float :=
  let randomScale := randomFloat 1 0.75 u in
  randomFloat (5 + randomScale) 5 v.

(** Is the mass above 10.75 when both draws are 63/64 = 0.984375? *)
Definition mass_above_10_75 : bool :=
  (10.75 <? randomMass 0.984375 0.984375)%float.

(** The largest binary64 number below 1, that is 1 - 2^-53: the largest
    outcome the language allows [Math.random()] to have. *)
Definition top_draw : float := 0x1.fffffffffffffp-1%float.

(** [randomScale] and [randomRadius] of [generateRandomObjectParams] when
    the draw for the scale is [u], and the radius the capsule branches pass
    to [createCapsule], [rp.randomRadius / 2]. *)
Definition randomScale (u : float) : float := randomFloat 1 0.75 u.
Definition randomRadius (u : float) : float := (randomScale u * 0.75)%float.
Definition capsuleRadius (u : float) : float := (randomRadius u / 2)%float.

(** Tests on binary64 numbers: a draw is in [0, 1); a number is in the
    half-open range from [lo] to [hi]. *)
Definition unit_draw (u : float) : bool := ((0 <=? u) && (u <? 1))%float.
Definition in_half_open (lo hi x : float) : bool :=
  ((lo <=? x) && (x <? hi))%float.

(** Is the capsule radius in [0.28125, 0.65625) when the scale is drawn
    at [u]?  Is the result of [randomFloat(1, 0.75)] in [0.75, 1.75)? *)
Definition capsule_radius_in_range (u : float) : bool :=
  in_half_open 0.28125 0.65625 (capsuleRadius u).
Definition scale_in_range (u : float) : bool :=
  in_half_open 0.75 1.75 (randomFloat 1 0.75 u).
(** Do they reach the upper ends? *)
Definition capsule_radius_at_end (u : float) : bool :=
  (capsuleRadius u =? 0.65625)%float.
Definition scale_at_end (u : float) : bool :=
  (randomFloat 1 0.75 u =? 1.75)%float.
Definition mass_at_end (u v : float) : bool :=
  (randomMass u v =? 11.75)%float.

End Binary64.

(** ** Geometry of the two engines *)

Record Vec3 := mkVec3 { vx : Q; vy : Q; vz : Q }.
Record Quat := mkQuat { qx : Q; qy : Q; qz : Q; qw : Q }.

(** ** The random spawn parameters of the scene script *)

Record RandomParams := mkRandomParams {
  randomColor : Q;
  randomScale : Q;
  randomRadius : Q;
  randomLength : Q;
  randomX : Q;
  randomY : Q;
  randomZ : Q;
  randomMass : Q;
  randomQuaternion : Quat
}.

Section Params.

Variable random : nat -> Q.

(** [generateRandomObjectParams]: ten draws, in source order. *)
Definition generateRandomObjectParams : State nat RandomParams :=
  let* randomColor := Util.random8BitColor random in
  let* randomScale := Util.randomFloat random 1 0.75 in
  let randomRadius := randomScale * 0.75 in
  let* randomLength := Util.randomFloat random 2 1 in
  let* randomX := Util.randomFloat random 5 (-5) in
  let* randomY := Util.randomFloat random 25 20 in
  let* randomZ := Util.randomFloat random 5 (-5) in
  let* randomMass := Util.randomFloat random (5 + randomScale) 5 in
  let* qx := Util.randomFloat random 360 0 in
  let* qy := Util.randomFloat random 360 0 in
  let* r := Util.Math_random random in
  let randomQuaternion := mkQuat qx qy (r * 360) 1 in
  ret (mkRandomParams randomColor randomScale randomRadius randomLength
         randomX randomY randomZ randomMass randomQuaternion).

End Params.

(** ** The generators in rounded arithmetic *)

(** The program computes on IEEE doubles: each [+] and [*] returns the
    exact result rounded to a double.  [fl] is that rounding, and the
    generators are written once more with every operation rounded.  With
    the rounding that changes nothing they are the generators above. *)
Module Rounded.
Section Rounded.

Variable fl : Q -> Q.
Variable random : nat -> Q.

Definition add (x y : Q) : Q := fl (x + y).
Definition mul (x y : Q) : Q := fl (x * y).

(** [randomFloat = (max, min = 0) => min + (Math.random() * max)] *)
Definition randomFloat (max min : Q) : State nat Q :=
  let* r := Util.Math_random random in ret (add min (mul r max)).

(** [random8BitColor = () => Math.random() * 0xffffff] *)
Definition random8BitColor : State nat Q :=
  let* r := Util.Math_random random in ret (mul r 16777215).

(** [generateRandomObjectParams] *)
Definition generateRandomObjectParams : State nat RandomParams :=
  let* randomColor := random8BitColor in
  let* randomScale := randomFloat 1 0.75 in
  let randomRadius := mul randomScale 0.75 in
  let* randomLength := randomFloat 2 1 in
  let* randomX := randomFloat 5 (-5) in
  let* randomY := randomFloat 25 20 in
  let* randomZ := randomFloat 5 (-5) in
  let* randomMass := randomFloat (add 5 randomScale) 5 in
  let* qx := randomFloat 360 0 in
  let* qy := randomFloat 360 0 in
  let* r := Util.Math_random random in
  let randomQuaternion := mkQuat qx qy (mul r 360) 1 in
  ret (mkRandomParams randomColor randomScale randomRadius randomLength
         randomX randomY randomZ randomMass randomQuaternion).

End Rounded.
End Rounded.

(** ** The graphics side (three.js) *)

Inductive Geometry :=
| BoxGeometry (width height depth : Q)
| CapsuleGeometry (radius length : Q)
| SphereGeometry (radius : Q) (widthSegments heightSegments : nat).

(** The arguments of the last [position.set] call on a mesh.  The create
    methods call it with one [THREE.Vector3] argument, the sync with three
    numbers; what three.js makes of the former is not decided here. *)
Inductive PositionArgs :=
| SetXYZ (x y z : Q)
| SetVector3 (v : Vec3).

Record Mesh := mkMesh {
  uuid : nat;                    (* object identity *)
  geometry : Geometry;
  material : Q;                  (* MeshPhongMaterial({color}) *)
  castShadow : bool;
  receiveShadow : bool;
  name : string;
  position : PositionArgs;
  quaternion : option Quat;      (* arguments of the last quaternion.set *)
  physicsBody : nat              (* userData.physicsBody *)
}.

Definition set_transform_of (p : Vec3) (q : Quat) (m : Mesh) : Mesh :=
  {| uuid := uuid m; geometry := geometry m; material := material m;
     castShadow := castShadow m; receiveShadow := receiveShadow m;
     name := name m;
     position := SetXYZ (vx p) (vy p) (vz p);
     quaternion := Some q;
     physicsBody := physicsBody m |}.

(** ** The physics side (Ammo) *)

Record btTransform := mkTransform { getOrigin : Vec3; getRotation : Quat }.

Inductive CollisionShape :=
| btBoxShape (halfExtents : Vec3)
| btCapsuleShape (radius height : Q)
| btSphereShape (radius : Q).

Record btRigidBody := mkBody {
  mass : Q;
  motionState : option btTransform;   (* btDefaultMotionState(transform) *)
  collisionShape : CollisionShape;
  margin : Q;
  restitution : Q
}.

(** Modelled from the spec: the physics engine ([./ammo.js]) is an external
    collaborator offering create-world(gravity), create-rigid-body,
    add/remove-body, step-simulation and query-world-transform.  The module
    [this.Ammo] owns the memory the bodies are allocated in, a map from
    pointers to bodies; the world [this.physicsUniverse] holds the gravity
    and the set of the pointers of its registered bodies. *)
Record AmmoModule := mkAmmo {
  memory : gmap nat btRigidBody;
  brk : nat                            (* next free pointer *)
}.

Record btDiscreteDynamicsWorld := mkWorld {
  gravity : option Vec3;
  collisionObjects : gset nat
}.

(** Modelled from the spec: [Physics_Object.getMotionState()] is a binding
    of [./ammo.js], which is not among the sources.  The spec has it that a
    body may have no motion state and that the sync of such a body is
    skipped: for a body without a motion state the call yields a value the
    guard [if (motionState)] of [updatePhysics] takes as false, [None]
    here.  Otherwise it yields the motion state, whose
    [getWorldTransform] writes the body's transform. *)
Definition getMotionState (mem : gmap nat btRigidBody) (ptr : nat)
    : option btTransform :=
  match mem !! ptr with
  | Some body => motionState body
  | None => None
  end.

Definition setGravity_world (g : Vec3) (w : btDiscreteDynamicsWorld) :=
  {| gravity := Some g; collisionObjects := collisionObjects w |}.

(** [new Ammo.btRigidBody(info)]: the body is stored at a fresh pointer. *)
Definition new_btRigidBody (b : btRigidBody) : State AmmoModule nat :=
  fun A => (brk A, {| memory := <[brk A := b]> (memory A); brk := S (brk A) |}).

Definition addRigidBody (ptr : nat) (w : btDiscreteDynamicsWorld) :=
  {| gravity := gravity w; collisionObjects := {[ptr]} ∪ collisionObjects w |}.

Definition removeCollisionObject (ptr : nat) (w : btDiscreteDynamicsWorld) :=
  {| gravity := gravity w; collisionObjects := collisionObjects w ∖ {[ptr]} |}.

(** ** The engine *)

(** The one callback the scene script installs (the readout updater). *)
Inductive Callback := readoutCallback.

(** Calls on the host and on the two engines made by the render loop, in
    the order they happen. *)
Inductive Effect :=
| clock_getDelta (deltaTime : Q)
| physics_stepSimulation (deltaTime : Q) (maxSubSteps : nat)
| mesh_setTransform (mesh : nat) (p : Vec3) (q : Quat)
| renderer_render (children : list nat)
| callback_call (c : Callback) (args : list Q)
| requestAnimationFrame.

Record Engine := mkEngine {
  Ammo : AmmoModule;
  rigidBodies : list Mesh;
  renderCallback : option Callback;
  scene : list nat;                    (* scene.children, by identity *)
  physicsUniverse : btDiscreteDynamicsWorld;
  tmpTransformation : option btTransform;
  objectCount : nat;                   (* identities handed out so far *)
  trace : list Effect
}.

Definition set_Ammo (A : AmmoModule) (e : Engine) : Engine :=
  mkEngine A (rigidBodies e) (renderCallback e) (scene e) (physicsUniverse e)
    (tmpTransformation e) (objectCount e) (trace e).
Definition set_rigidBodies (l : list Mesh) (e : Engine) : Engine :=
  mkEngine (Ammo e) l (renderCallback e) (scene e) (physicsUniverse e)
    (tmpTransformation e) (objectCount e) (trace e).
Definition set_renderCallback (c : option Callback) (e : Engine) : Engine :=
  mkEngine (Ammo e) (rigidBodies e) c (scene e) (physicsUniverse e)
    (tmpTransformation e) (objectCount e) (trace e).
Definition set_scene (s : list nat) (e : Engine) : Engine :=
  mkEngine (Ammo e) (rigidBodies e) (renderCallback e) s (physicsUniverse e)
    (tmpTransformation e) (objectCount e) (trace e).
Definition set_physicsUniverse (w : btDiscreteDynamicsWorld) (e : Engine)
    : Engine :=
  mkEngine (Ammo e) (rigidBodies e) (renderCallback e) (scene e) w
    (tmpTransformation e) (objectCount e) (trace e).
Definition set_tmpTransformation (t : option btTransform) (e : Engine)
    : Engine :=
  mkEngine (Ammo e) (rigidBodies e) (renderCallback e) (scene e)
    (physicsUniverse e) t (objectCount e) (trace e).
Definition set_objectCount (n : nat) (e : Engine) : Engine :=
  mkEngine (Ammo e) (rigidBodies e) (renderCallback e) (scene e)
    (physicsUniverse e) (tmpTransformation e) n (trace e).
Definition set_trace (t : list Effect) (e : Engine) : Engine :=
  mkEngine (Ammo e) (rigidBodies e) (renderCallback e) (scene e)
    (physicsUniverse e) (tmpTransformation e) (objectCount e) t.

(** [new Engine(root)] *)
Definition Engine_constructor : Engine :=
  {| Ammo := mkAmmo ∅ 0;
     rigidBodies := [];
     renderCallback := None;
     scene := [];
     physicsUniverse := mkWorld None ∅;
     tmpTransformation := None;
     objectCount := 0;
     trace := [] |}.

Definition emit (ef : Effect) : State Engine unit :=
  modify (fun e => set_trace (trace e ++ [ef]) e).

(** A fresh object identity ([new THREE.Mesh], [new THREE.AmbientLight]...). *)
Definition new_Object3D : State Engine nat :=
  fun e => (objectCount e, set_objectCount (S (objectCount e)) e).

(** Modelled from the spec: add/remove-from-scene of the graphics engine.
    A child occurs once among [scene.children]; [scene.remove] of an
    object that is not a child changes nothing. *)
Definition scene_add (id : nat) : State Engine unit :=
  modify (fun e => set_scene (filter (λ c, c ≠ id) (scene e) ++ [id]) e).
Definition scene_remove (id : nat) : State Engine unit :=
  modify (fun e => set_scene (filter (λ c, c ≠ id) (scene e)) e).

(** The argument of [createBox] is a number or an [{x, y, z}] object. *)
Inductive Scale :=
| ScaleNumber (s : Q)
| ScaleObject (v : Vec3).

Definition inAmmo {A} (m : State AmmoModule A) : State Engine A :=
  zoom Ammo set_Ammo m.

Section Engine.

(** Modelled from the spec: step-simulation(delta, substeps) of the
    physics engine, opaque: from the time step, the sub-step bound, the
    world and the bodies in memory to the bodies after the step. *)
Variable stepSimulation :
  Q -> nat -> btDiscreteDynamicsWorld ->
  gmap nat btRigidBody -> gmap nat btRigidBody.

(** [setGravity(gravity)] *)
Definition setGravity (gravity : Vec3) : State Engine unit :=
  modify (fun e =>
    set_physicsUniverse (setGravity_world gravity (physicsUniverse e)) e).

(** [createAmbientLight(color, intensity)] *)
Definition createAmbientLight (color intensity : Q) : State Engine unit :=
  let* ambientLight := new_Object3D in
  scene_add ambientLight.

(** [createSpotLight(color, intensity, position, lookAt)] *)
Definition createSpotLight (color intensity : Q) (position lookAt : Vec3)
    : State Engine unit :=
  let* spotLight := new_Object3D in
  scene_add spotLight.

(** [createBox(scale, position, quaternion, mass, name, color)]; returns
    the mesh. *)
Definition createBox (scale : Scale) (position : Vec3) (quaternion : Quat)
    (mass : Q) (name : string) (color : Q) : State Engine (option Mesh) :=
  let scale :=
    match scale with
    | ScaleNumber s => mkVec3 s s s
    | ScaleObject v => v
    end in
  let geometry := BoxGeometry (vx scale) (vy scale) (vz scale) in
  let material := color in
  let* cube := new_Object3D in
  do scene_add cube then
  let transform := mkTransform position quaternion in
  let defaultMotionState := Some transform in
  let structColShape :=
    btBoxShape (mkVec3 (vx scale * 0.5) (vy scale * 0.5) (vz scale * 0.5)) in
  let CubeRigidBody :=
    mkBody mass defaultMotionState structColShape 0.05 0.75 in
  let* ptr := inAmmo (new_btRigidBody CubeRigidBody) in
  do modify (fun e =>
       set_physicsUniverse (addRigidBody ptr (physicsUniverse e)) e) then
  let cube :=
    mkMesh cube geometry material true true name (SetVector3 position)
      None ptr in
  do modify (fun e => set_rigidBodies (rigidBodies e ++ [cube]) e) then
  ret (Some cube).

(** [createCapsule(radius, length, position, quaternion, mass, name,
    color)]; the method has no [return] statement. *)
Definition createCapsule (radius length : Q) (position : Vec3)
    (quaternion : Quat) (mass : Q) (name : string) (color : Q)
    : State Engine (option Mesh) :=
  let geometry := CapsuleGeometry radius length in
  let material := color in
  let* capsule := new_Object3D in
  do scene_add capsule then
  let transform := mkTransform position quaternion in
  let defaultMotionState := Some transform in
  let structColShape := btCapsuleShape radius length in
  let CapsuleRigidBody :=
    mkBody mass defaultMotionState structColShape 0.05 0.75 in
  let* ptr := inAmmo (new_btRigidBody CapsuleRigidBody) in
  do modify (fun e =>
       set_physicsUniverse (addRigidBody ptr (physicsUniverse e)) e) then
  let capsule :=
    mkMesh capsule geometry material true true name (SetVector3 position)
      None ptr in
  do modify (fun e => set_rigidBodies (rigidBodies e ++ [capsule]) e) then
  ret None.

(** [createSphere(radius, position, quaternion, mass, name, color)];
    returns the mesh. *)
Definition createSphere (radius : Q) (position : Vec3) (quaternion : Quat)
    (mass : Q) (name : string) (color : Q) : State Engine (option Mesh) :=
  let geometry := SphereGeometry radius 32 16 in
  let material := color in
  let* sphere := new_Object3D in
  do scene_add sphere then
  let transform := mkTransform position quaternion in
  let defaultMotionState := Some transform in
  let structColShape := btSphereShape radius in
  let SphereRigidBody :=
    mkBody mass defaultMotionState structColShape 0.05 0.75 in
  let* ptr := inAmmo (new_btRigidBody SphereRigidBody) in
  do modify (fun e =>
       set_physicsUniverse (addRigidBody ptr (physicsUniverse e)) e) then
  let sphere :=
    mkMesh sphere geometry material true true name (SetVector3 position)
      None ptr in
  do modify (fun e => set_rigidBodies (rigidBodies e ++ [sphere]) e) then
  ret (Some sphere).

(** The callback of the [forEach] in [updatePhysics].  The motion state
    writes its world transform into [this.tmpTransformation], from which
    the new position and quaternion are read; they are written on the mesh,
    which sits at index [i] of the registry. *)
Definition syncOne (rigidBody : Mesh) (i : nat) : State Engine unit :=
  let Graphics_Object := rigidBody in
  let Physics_Object := physicsBody Graphics_Object in
  let* e := get in
  match getMotionState (memory (Ammo e)) Physics_Object with
  | Some worldTransform =>
      do modify (set_tmpTransformation (Some worldTransform)) then
      let newPosition := getOrigin worldTransform in
      let newQuaternion := getRotation worldTransform in
      do modify (fun e =>
           set_rigidBodies
             (<[i := set_transform_of newPosition newQuaternion
                       Graphics_Object]> (rigidBodies e)) e) then
      emit (mesh_setTransform (uuid Graphics_Object) newPosition
              newQuaternion)
  | None => ret tt
  end.

(** [updatePhysics(deltaTime)] *)
Definition updatePhysics (deltaTime : Q) : State Engine unit :=
  do modify (fun e =>
       set_Ammo
         (mkAmmo
            (stepSimulation deltaTime 10 (physicsUniverse e)
               (memory (Ammo e)))
            (brk (Ammo e))) e) then
  do emit (physics_stepSimulation deltaTime 10) then
  let* e := get in
  forEach (rigidBodies e) syncOne.

(** [this.renderCallback()]: the readout updater only writes to the
    page, which is not part of the engine state. *)
Definition call (c : Callback) : State Engine unit :=
  emit (callback_call c []).

(** [render()]; [deltaTime] is what [this.clock.getDelta()] returns on
    this tick. *)
Definition render (deltaTime : Q) : State Engine unit :=
  do emit (clock_getDelta deltaTime) then
  do updatePhysics deltaTime then
  do (let* e := get in emit (renderer_render (scene e))) then
  do (let* e := get in
      match renderCallback e with
      | Some c => call c
      | None => ret tt
      end) then
  emit requestAnimationFrame.

(** [initGraphicsUniverse()]: a fresh scene; the renderer and the camera
    carry no state of interest here. *)
Definition initGraphicsUniverse : State Engine unit :=
  modify (set_scene []).

(** [initPhysicsUniverse()]: a fresh, empty dynamics world. *)
Definition initPhysicsUniverse : State Engine unit :=
  modify (set_physicsUniverse (mkWorld None ∅)).

(** [init()]: [deltaTime] is the clock reading of the frame it renders. *)
Definition init (deltaTime : Q) : State Engine unit :=
  do modify (set_Ammo (mkAmmo ∅ 0)) then
  do modify (set_tmpTransformation None) then
  do initGraphicsUniverse then
  do initPhysicsUniverse then
  render deltaTime.

End Engine.

(** ** The scene script *)

(** The closure variables of the script, the host's timer table and the
    state of [Math.random]. *)
Record App := mkApp {
  E : Engine;
  floorIsShowing : bool;
  intervalRef : option nat;            (* a timer handle, or undefined *)
  timers : nat;                        (* timer handles handed out so far *)
  randomCalls : nat                    (* Math.random() draws consumed *)
}.

Definition set_E (e : Engine) (a : App) : App :=
  mkApp e (floorIsShowing a) (intervalRef a) (timers a) (randomCalls a).
Definition set_floorIsShowing (b : bool) (a : App) : App :=
  mkApp (E a) b (intervalRef a) (timers a) (randomCalls a).
Definition set_intervalRef (r : option nat) (a : App) : App :=
  mkApp (E a) (floorIsShowing a) r (timers a) (randomCalls a).
Definition set_timers (n : nat) (a : App) : App :=
  mkApp (E a) (floorIsShowing a) (intervalRef a) n (randomCalls a).
Definition set_randomCalls (n : nat) (a : App) : App :=
  mkApp (E a) (floorIsShowing a) (intervalRef a) (timers a) n.

Definition onE {A} (m : State Engine A) : State App A := zoom E set_E m.
Definition onRandom {A} (m : State nat A) : State App A :=
  zoom randomCalls set_randomCalls m.

(** [setInterval(callback, delay)]: a fresh, positive timer handle. *)
Definition setInterval : State App nat :=
  fun a => (S (timers a), set_timers (S (timers a)) a).

Definition is_floor (m : Mesh) : bool := String.eqb (name m) "floor".

(** The removal loop of the [keypress] handler, written twice in the source
    (under [KeyR] with the test [rigidBody.name !== 'floor'], under [KeyF]
    with [rigidBody.name === 'floor']).  The state of the loop is the local
    copy [tmpRigidBodies] together with the engine. *)

(** The callback of its [forEach]: a mesh passing the test is removed from
    the scene, its body is removed from the world ([physicsBody.eB] is the
    pointer of the body) and its slot in the copy is nulled. *)
Definition removeBody (test : Mesh -> bool) (rigidBody : Mesh) (i : nat)
    : State (list (option Mesh) * Engine) unit :=
  if test rigidBody then
    do zoom snd (fun e '(t, _) => (t, e))
         (scene_remove (uuid rigidBody)) then
    do modify (fun '(t, e) =>
         (t, set_physicsUniverse
               (removeCollisionObject (physicsBody rigidBody)
                  (physicsUniverse e)) e)) then
    modify (fun '(t, e) => (<[i := None]> t, e))
  else ret tt.

(** Copy the registry, walk the registry, then let the registry be the
    copy without its nulled slots. *)
Definition removeLoop (test : Mesh -> bool) : State Engine unit :=
  fun e =>
    let tmpRigidBodies : list (option Mesh) := Some <$> rigidBodies e in
    let '(tmpRigidBodies, e1) :=
      exec (forEach (rigidBodies e) (removeBody test)) (tmpRigidBodies, e) in
    (tt, set_rigidBodies (omap id tmpRigidBodies) e1).

Section Scene.

Variable random : nat -> Q.
Variable stepSimulation :
  Q -> nat -> btDiscreteDynamicsWorld ->
  gmap nat btRigidBody -> gmap nat btRigidBody.

(** [makeFloor]: four tilted walls and a base, all static. *)
Definition makeFloor : State Engine unit :=
  do createBox (ScaleObject (mkVec3 22 7 1)) (mkVec3 0 2 11)
       (mkQuat 0.25 0 0 1) 0 "floor" 13421772 then
  do createBox (ScaleObject (mkVec3 1 7 22)) (mkVec3 (-11) 2 0)
       (mkQuat 0 0 0.25 1) 0 "floor" 13421772 then
  do createBox (ScaleObject (mkVec3 22 7 1)) (mkVec3 0 2 (-11))
       (mkQuat (-0.25) 0 0 1) 0 "floor" 13421772 then
  do createBox (ScaleObject (mkVec3 1 7 22)) (mkVec3 11 2 0)
       (mkQuat 0 0 (-0.25) 1) 0 "floor" 13421772 then
  do createBox (ScaleObject (mkVec3 21 2 21)) (mkVec3 0 0 0)
       (mkQuat 0 0 0 1) 0 "floor" 13421772 then
  ret tt.

(** [generateRandomObject(rp)] *)
Definition generateRandomObject (rp : RandomParams) : State App unit :=
  let* whichFunction := onRandom (Util.randomInt random 3 0) in
  let pos := mkVec3 (randomX rp) (randomY rp) (randomZ rp) in
  if Qeq_bool whichFunction 0 then
    do onE (createCapsule (randomRadius rp / 2) (randomLength rp) pos
              (randomQuaternion rp) (randomMass rp) "capsule"
              (randomColor rp)) then ret tt
  else if Qeq_bool whichFunction 1 then
    do onE (createSphere (randomRadius rp) pos (randomQuaternion rp)
              (randomMass rp) "sphere" (randomColor rp)) then ret tt
  else if Qeq_bool whichFunction 2 then
    do onE (createBox (ScaleNumber (randomScale rp)) pos
              (randomQuaternion rp) (randomMass rp) "box"
              (randomColor rp)) then ret tt
  else ret tt.

(** The callback given to [setInterval] under [KeyG]. *)
Definition intervalCallback : State App unit :=
  let* rp := onRandom (generateRandomObjectParams random) in
  generateRandomObject rp.

(** The [keypress] listener; [code] is [e.code]. *)
Definition onKeypress (code : string) : State App unit :=
  let* rp := onRandom (generateRandomObjectParams random) in
  let pos := mkVec3 (randomX rp) (randomY rp) (randomZ rp) in
  if String.eqb code "KeyS" then
    do onE (createSphere (randomRadius rp) pos (randomQuaternion rp)
              (randomMass rp) "sphere" (randomColor rp)) then ret tt
  else if String.eqb code "KeyB" then
    do onE (createBox (ScaleNumber (randomScale rp)) pos
              (randomQuaternion rp) (randomMass rp) "box"
              (randomColor rp)) then ret tt
  else if String.eqb code "KeyC" then
    do onE (createCapsule (randomRadius rp / 2) (randomLength rp) pos
              (randomQuaternion rp) (randomMass rp) "capsule"
              (randomColor rp)) then ret tt
  else if String.eqb code "Space" then
    generateRandomObject rp
  else if String.eqb code "KeyR" then
    onE (removeLoop (fun rigidBody => negb (is_floor rigidBody)))
  else if String.eqb code "KeyF" then
    let* a := get in
    if negb (floorIsShowing a) then
      do onE makeFloor then
      modify (set_floorIsShowing true)
    else
      do onE (removeLoop (fun rigidBody => is_floor rigidBody)) then
      modify (set_floorIsShowing false)
  else if String.eqb code "KeyG" then
    let* a := get in
    match intervalRef a with
    | Some _ =>
        (* clearInterval(intervalRef) *)
        modify (set_intervalRef None)
    | None =>
        let* handle := setInterval in
        modify (set_intervalRef (Some handle))
    end
  else ret tt.

(** The script up to the registration of the listener; [deltaTime] is
    the clock reading of the frame rendered by [init]. *)
Definition main (deltaTime : Q) : App :=
  let script : State Engine unit :=
    do init stepSimulation deltaTime then
    do modify (set_renderCallback (Some readoutCallback)) then
    do setGravity (mkVec3 0 (-150) 0) then
    do createAmbientLight 16777215 0.5 then
    do createSpotLight 16777215 1 (mkVec3 (-10) 25 (-10)) (mkVec3 0 0 0) then
    makeFloor in
  mkApp (exec script Engine_constructor) true None 0 0.

(** What the host can deliver to the page once the script has run. *)
Inductive Event :=
| Keypress (code : string)
| AnimationFrame (deltaTime : Q)
| IntervalElapsed.

Definition handle (ev : Event) : State App unit :=
  match ev with
  | Keypress code => onKeypress code
  | AnimationFrame deltaTime => onE (render stepSimulation deltaTime)
  | IntervalElapsed =>
      let* a := get in
      match intervalRef a with
      | Some _ => intervalCallback
      | None => ret tt             (* no timer is running *)
      end
  end.

Definition run (evs : list Event) (a : App) : App :=
  fold_left (fun a ev => exec (handle ev) a) evs a.

End Scene.

(** ** Vocabulary of the properties *)

(** The ranges of one parameter set as the spec states them, upper ends
    excluded; [massBound] is the upper end of the mass range, 10.75 in the
    spec. *)
Definition in_ranges (massBound : Q) (rp : RandomParams) : Prop :=
  (0.75 <= randomScale rp /\ randomScale rp < 1.75) /\
  randomRadius rp == randomScale rp * 0.75 /\
  (1 <= randomLength rp /\ randomLength rp < 3) /\
  (-5 <= randomX rp /\ randomX rp < 5) /\
  (-5 <= randomZ rp /\ randomZ rp < 5) /\
  (20 <= randomY rp /\ randomY rp < 45) /\
  (5 <= randomMass rp /\ randomMass rp < massBound) /\
  (0 <= qx (randomQuaternion rp) /\ qx (randomQuaternion rp) < 360) /\
  (0 <= qy (randomQuaternion rp) /\ qy (randomQuaternion rp) < 360) /\
  (0 <= qz (randomQuaternion rp) /\ qz (randomQuaternion rp) < 360) /\
  qw (randomQuaternion rp) = 1.

(** [Math.random()] is in [[0, 1)]. *)
Definition unit_interval (random : nat -> Q) : Prop :=
  forall n, 0 <= random n /\ random n < 1.

(** Sample generators: one stuck near the top of the interval, one that
    cycles through the tenths. *)
Definition high_random (n : nat) : Q := 63 # 64.
Definition cyclic_random (n : nat) : Q := Z.of_nat (n mod 10) # 10.

(** What the sync leaves in place of mesh [m] when the bodies in memory
    are [mem]. *)
Definition synced (mem : gmap nat btRigidBody) (m : Mesh) : Mesh :=
  match getMotionState mem (physicsBody m) with
  | Some t => set_transform_of (getOrigin t) (getRotation t) m
  | None => m
  end.

(** The transform writes of one sync over the registry [l], in order. *)
Definition syncEffects (mem : gmap nat btRigidBody) (l : list Mesh)
    : list Effect :=
  omap (fun m =>
          match getMotionState mem (physicsBody m) with
          | Some t =>
              Some (mesh_setTransform (uuid m) (getOrigin t) (getRotation t))
          | None => None
          end) l.

(** The effects of one frame after the sync: the render call, the callback
    when one is installed, the request for the next frame. *)
Definition frameTail (e : Engine) : list Effect :=
  renderer_render (scene e)
    :: match renderCallback e with
       | Some c => [callback_call c []]
       | None => []
       end
    ++ [requestAnimationFrame].

(** A sample physics step: every dynamic body with a motion state drops by
    [deltaTime]; static bodies (mass 0) stay where they are. *)
Definition demo_fall (deltaTime : Q) (b : btRigidBody) : btRigidBody :=
  if Qeq_bool (mass b) 0 then b
  else
    match motionState b with
    | Some t =>
        mkBody (mass b)
          (Some (mkTransform
                   (mkVec3 (vx (getOrigin t)) (vy (getOrigin t) - deltaTime)
                      (vz (getOrigin t)))
                   (getRotation t)))
          (collisionShape b) (margin b) (restitution b)
    | None => b
    end.

Definition demo_step (deltaTime : Q) (maxSubSteps : nat)
    (w : btDiscreteDynamicsWorld) (mem : gmap nat btRigidBody)
    : gmap nat btRigidBody :=
  demo_fall deltaTime <$> mem.

(** A sample engine state: two spheres in the registry, the first of which
    has a body without a motion state. *)
Definition demo_mesh (id ptr : nat) : Mesh :=
  mkMesh id (SphereGeometry 1 32 16) 16777215 true true "sphere"
    (SetVector3 (mkVec3 0 20 0)) None ptr.

Definition demo_engine : Engine :=
  {| Ammo :=
       mkAmmo
         (<[0%nat := mkBody 5 None (btSphereShape 1) 0.05 0.75]>
            (<[1%nat := mkBody 5 (Some (mkTransform (mkVec3 0 20 0)
                                          (mkQuat 0 0 0 1)))
                          (btSphereShape 1) 0.05 0.75]> ∅))
         2;
     rigidBodies := [demo_mesh 0 0; demo_mesh 1 1];
     renderCallback := Some readoutCallback;
     scene := [0%nat; 1%nat];
     physicsUniverse := mkWorld None {[0%nat; 1%nat]};
     tmpTransformation := None;
     objectCount := 2;
     trace := [] |}.

(** The slot of the registry copy for mesh [m] once the removal loop with
    test [test] has passed it. *)
Definition slot (test : Mesh -> bool) (m : Mesh) : option Mesh :=
  if test m then None else Some m.

(** The parts of the engine that no removal changes. *)
Definition untouched (e e' : Engine) : Prop :=
  Ammo e' = Ammo e /\
  renderCallback e' = renderCallback e /\
  tmpTransformation e' = tmpTransformation e /\
  objectCount e' = objectCount e /\
  trace e' = trace e /\
  gravity (physicsUniverse e') = gravity (physicsUniverse e).

(** The engine after one create call: a mesh with a fresh identity joins
    the scene and the end of the registry, its body is allocated at a fresh
    pointer and registered with the world. *)
Definition newMesh (e : Engine) (g : Geometry) (pos : Vec3) (nm : string)
    (color : Q) : Mesh :=
  mkMesh (objectCount e) g color true true nm (SetVector3 pos) None
    (brk (Ammo e)).

Definition newBody (shape : CollisionShape) (pos : Vec3) (q : Quat) (m : Q)
    : btRigidBody :=
  mkBody m (Some (mkTransform pos q)) shape 0.05 0.75.

Definition spawn (g : Geometry) (shape : CollisionShape) (pos : Vec3)
    (q : Quat) (m : Q) (nm : string) (color : Q) (e : Engine) : Engine :=
  {| Ammo := mkAmmo (<[brk (Ammo e) := newBody shape pos q m]>
                       (memory (Ammo e)))
                    (S (brk (Ammo e)));
     rigidBodies := rigidBodies e ++ [newMesh e g pos nm color];
     renderCallback := renderCallback e;
     scene := filter (λ c, c ≠ objectCount e) (scene e) ++ [objectCount e];
     physicsUniverse :=
       mkWorld (gravity (physicsUniverse e))
         ({[brk (Ammo e)]} ∪ collisionObjects (physicsUniverse e));
     tmpTransformation := tmpTransformation e;
     objectCount := S (objectCount e);
     trace := trace e |}.

Definition halfExtents (s : Vec3) : Vec3 :=
  mkVec3 (vx s * 0.5) (vy s * 0.5) (vz s * 0.5).

Definition spawnBox (s pos : Vec3) (q : Quat) (m : Q) (nm : string)
    (color : Q) : Engine -> Engine :=
  spawn (BoxGeometry (vx s) (vy s) (vz s)) (btBoxShape (halfExtents s))
    pos q m nm color.

Definition spawnCapsule (radius length : Q) (pos : Vec3) (q : Quat) (m : Q)
    (nm : string) (color : Q) : Engine -> Engine :=
  spawn (CapsuleGeometry radius length) (btCapsuleShape radius length)
    pos q m nm color.

Definition spawnSphere (radius : Q) (pos : Vec3) (q : Quat) (m : Q)
    (nm : string) (color : Q) : Engine -> Engine :=
  spawn (SphereGeometry radius 32 16) (btSphereShape radius) pos q m nm color.

(** The spawn position of a parameter set. *)
Definition positionOf (rp : RandomParams) : Vec3 :=
  mkVec3 (randomX rp) (randomY rp) (randomZ rp).

(** The floor-named and the other meshes of the registry, in order. *)
Definition floors (e : Engine) : list Mesh :=
  filter (λ m, is_floor m) (rigidBodies e).
Definition nonFloors (e : Engine) : list Mesh :=
  filter (λ m, ¬ is_floor m) (rigidBodies e).

(** What makes up a panel: on the graphics side its name, dimensions and
    color; on the physics side the body behind it (mass, position and
    orientation of its motion state, shape, margin, restitution). *)
Definition visual (m : Mesh) : string * Geometry * Q :=
  (name m, geometry m, material m).

Definition bodyOf (mem : gmap nat btRigidBody) (m : Mesh)
    : option btRigidBody :=
  mem !! physicsBody m.

Definition panel (mem : gmap nat btRigidBody) (m : Mesh)
    : (string * Geometry * Q) * option btRigidBody :=
  (visual m, bodyOf mem m).

Definition floorPanel (s pos : Vec3) (q : Quat)
    : (string * Geometry * Q) * option btRigidBody :=
  (("floor", BoxGeometry (vx s) (vy s) (vz s), 13421772),
   Some (newBody (btBoxShape (halfExtents s)) pos q 0)).

(** The five panels of [makeFloor]. *)
Definition floorPanels
    : list ((string * Geometry * Q) * option btRigidBody) :=
  [ floorPanel (mkVec3 22 7 1) (mkVec3 0 2 11) (mkQuat 0.25 0 0 1);
    floorPanel (mkVec3 1 7 22) (mkVec3 (-11) 2 0) (mkQuat 0 0 0.25 1);
    floorPanel (mkVec3 22 7 1) (mkVec3 0 2 (-11)) (mkQuat (-0.25) 0 0 1);
    floorPanel (mkVec3 1 7 22) (mkVec3 11 2 0) (mkQuat 0 0 (-0.25) 1);
    floorPanel (mkVec3 21 2 21) (mkVec3 0 0 0) (mkQuat 0 0 0 1) ].

(** Modelled from the spec: "Mass = 0 objects never move across any number
    of simulation steps" (the static body invariant of the physics engine);
    a step leaves a body of mass 0 as it is. *)
Definition static_step
    (stepSimulation :
       Q -> nat -> btDiscreteDynamicsWorld ->
       gmap nat btRigidBody -> gmap nat btRigidBody) : Prop :=
  forall deltaTime maxSubSteps w (mem : gmap nat btRigidBody) p b,
    mem !! p = Some b -> mass b == 0 ->
    stepSimulation deltaTime maxSubSteps w mem !! p = Some b.

(** The parameter set a handler draws in state [a], and [a] once the ten
    draws are consumed. *)
Definition paramsOf (random : nat -> Q) (a : App) : RandomParams :=
  fst (generateRandomObjectParams random (randomCalls a)).
Definition drawn (a : App) : App := set_randomCalls (10 + randomCalls a) a.

(** The three kinds of spawned objects, and the kind picked by a draw [u]
    of the unit interval: one third of the interval each. *)
Inductive Kind := capsule | sphere | box.

Definition kindOfDraw (u : Q) : Kind :=
  if Qlt_le_dec u (1 # 3) then capsule
  else if Qlt_le_dec u (2 # 3) then sphere
  else box.

(** Spawning an object of kind [k] from the parameter set [rp], as the
    handler's branches do it. *)
Definition spawnKind (k : Kind) (rp : RandomParams) : Engine -> Engine :=
  match k with
  | capsule =>
      spawnCapsule (randomRadius rp / 2) (randomLength rp) (positionOf rp)
        (randomQuaternion rp) (randomMass rp) "capsule" (randomColor rp)
  | sphere =>
      spawnSphere (randomRadius rp) (positionOf rp) (randomQuaternion rp)
        (randomMass rp) "sphere" (randomColor rp)
  | box =>
      spawnBox (mkVec3 (randomScale rp) (randomScale rp) (randomScale rp))
        (positionOf rp) (randomQuaternion rp) (randomMass rp) "box"
        (randomColor rp)
  end.

(** Every body behind a registry mesh was allocated. *)
Definition fresh_ptrs (e : Engine) : Prop :=
  forall m, m ∈ rigidBodies e -> (physicsBody m < brk (Ammo e))%nat.

(** The floor of the registry matches the flag [fl], on the graphics side:
    the five panels of [makeFloor] when it is set, no floor-named mesh when
    it is not. *)
Definition floor_visuals_ok (e : Engine) (fl : bool) : Prop :=
  if fl
  then visual <$> floors e = fst <$> floorPanels
  else floors e = [].

(** The same on the physics side: when the flag is set, the bodies behind
    the floor-named meshes are those [makeFloor] allocated, unmoved. *)
Definition floor_bodies_ok (e : Engine) (fl : bool) : Prop :=
  fresh_ptrs e /\
  (fl = true ->
   bodyOf (memory (Ammo e)) <$> floors e = snd <$> floorPanels).

Definition floor_inv (a : App) : Prop :=
  floor_visuals_ok (E a) (floorIsShowing a) /\
  floor_bodies_ok (E a) (floorIsShowing a).

(** The name and the geometry an object of kind [k] gets from [rp]. *)
Definition kindName (k : Kind) : string :=
  match k with capsule => "capsule" | sphere => "sphere" | box => "box" end.

Definition kindGeometry (k : Kind) (rp : RandomParams) : Geometry :=
  match k with
  | capsule => CapsuleGeometry (randomRadius rp / 2) (randomLength rp)
  | sphere => SphereGeometry (randomRadius rp) 32 16
  | box => BoxGeometry (randomScale rp) (randomScale rp) (randomScale rp)
  end.

(** A sample state of the page: the script has run, then B and a frame. *)
Definition demo_app : App :=
  run cyclic_random demo_step [Keypress "KeyB"; AnimationFrame 1]
    (main demo_step 0).

(** What one event can do to the engine and to the floor flag: nothing,
    spawn one object that is not floor-named, clear the non-floor meshes,
    take the floor away, put the floor back, or render one frame. *)
Inductive lifecycle
    (stepSimulation :
       Q -> nat -> btDiscreteDynamicsWorld ->
       gmap nat btRigidBody -> gmap nat btRigidBody)
    (a : App) : Engine -> bool -> Prop :=
| lc_idle : lifecycle stepSimulation a (E a) (floorIsShowing a)
| lc_spawn k rp :
    lifecycle stepSimulation a (spawnKind k rp (E a)) (floorIsShowing a)
| lc_clear :
    lifecycle stepSimulation a
      (exec (removeLoop (fun m => negb (is_floor m))) (E a))
      (floorIsShowing a)
| lc_floor_off :
    floorIsShowing a = true ->
    lifecycle stepSimulation a (exec (removeLoop is_floor) (E a)) false
| lc_floor_on :
    floorIsShowing a = false ->
    lifecycle stepSimulation a (exec makeFloor (E a)) true
| lc_frame deltaTime :
    lifecycle stepSimulation a
      (exec (render stepSimulation deltaTime) (E a)) (floorIsShowing a).

(** ** Vocabulary of the further properties *)

(** The scene, the world and the registry agree: the children of the scene
    are the lights [lights] followed by the registry's meshes in registry
    order, the bodies registered in the world are exactly those behind the
    registry's meshes, and object identities and body pointers are pairwise
    distinct and were handed out by the allocators. *)
Definition registered (lights : list nat) (e : Engine) : Prop :=
  scene e = lights ++ (uuid <$> rigidBodies e) /\
  collisionObjects (physicsUniverse e)
    = list_to_set (physicsBody <$> rigidBodies e) /\
  NoDup (lights ++ (uuid <$> rigidBodies e)) /\
  NoDup (physicsBody <$> rigidBodies e) /\
  (forall c, c ∈ lights ++ (uuid <$> rigidBodies e) ->
             (c < objectCount e)%nat) /\
  fresh_ptrs e.

(** Everything of a mesh but where it is drawn. *)
Definition makeup (m : Mesh)
    : nat * Geometry * Q * bool * bool * string * nat :=
  (uuid m, geometry m, material m, castShadow m, receiveShadow m, name m,
   physicsBody m).

(** ** Vocabulary of rounding *)

(** A binary fraction with at most 53 significant bits and an exponent in
    the normal range: every such number is a double. *)
Definition dyadic (x : Q) : Prop :=
  exists (n : Z) (k : nat),
    (Z.abs n <= 2 ^ 53)%Z /\ (k <= 1022)%nat /\
    x == inject_Z n / inject_Z (2 ^ Z.of_nat k).

(** What is assumed of the rounding of the program's arithmetic: a larger
    exact result is not rounded to a smaller number, and a result that is a
    double is not changed.  Rounding to the nearest double is of this kind,
    and so is the rounding that changes nothing (exact arithmetic). *)
Record rounding (fl : Q -> Q) : Prop := mkRounding {
  rounding_mono : forall x y, x <= y -> fl x <= fl y;
  rounding_exact : forall x, dyadic x -> fl x == x
}.

(** The numbers a rounding leaves as they are. *)
Definition representable (fl : Q -> Q) (x : Q) : Prop := fl x == x.

Definition exact_arithmetic (x : Q) : Q := x.

(** ** The info panel and the frame rate *)

(** A number as [calcFPS] can return it: finite, or [Infinity] from the
    division of 1 by a zero delay. *)
Inductive JSNumber :=
| Finite (q : Q)
| PosInfinity.

(** [Math.round]: the nearest integer, halves upwards; [Infinity] stays. *)
Definition Math_round (x : JSNumber) : JSNumber :=
  match x with
  | Finite q => Finite (inject_Z (Qfloor (q + (1 # 2))))
  | PosInfinity => PosInfinity
  end.

(** The characters of the names the engine puts into markup and into
    selectors: letters, digits, [_] and [-]. *)
Definition char_is (s : string) (c : Ascii.ascii) : bool :=
  String.eqb (String c EmptyString) s.

Definition is_letter (c : Ascii.ascii) : bool :=
  let n := Ascii.nat_of_ascii c in
  (Nat.leb 65 n && Nat.leb n 90) || (Nat.leb 97 n && Nat.leb n 122).

Definition is_digit (c : Ascii.ascii) : bool :=
  let n := Ascii.nat_of_ascii c in Nat.leb 48 n && Nat.leb n 57.

Definition ident_start (c : Ascii.ascii) : bool :=
  is_letter c || char_is "_" c.

Definition ident_char (c : Ascii.ascii) : bool :=
  ident_start c || is_digit c || char_is "-" c.

Fixpoint all_chars (f : Ascii.ascii -> bool) (s : string) : bool :=
  match s with
  | EmptyString => true
  | String c rest => f c && all_chars f rest
  end.

Definition name_chars (s : string) : bool := all_chars ident_char s.

(** A CSS identifier over these characters: it starts with a letter or
    [_], or with [-] followed by a letter, [_] or [-].  A text that starts
    with a digit, or with [-] and a digit, is not one, nor are the empty
    text and [-] alone. *)
Definition is_identifier (s : string) : bool :=
  match s with
  | EmptyString => false
  | String c rest =>
      if ident_start c then all_chars ident_char rest
      else if char_is "-" c then
        match rest with
        | EmptyString => false
        | String d rest' =>
            (ident_start d || char_is "-" d) && all_chars ident_char rest'
        end
      else false
  end.

(** A text that [insertAdjacentHTML] inserts as it is: no [<], no [&]. *)
Definition html_text (s : string) : bool :=
  all_chars (fun c => negb (char_is "<" c || char_is "&" c)) s.

(** One paragraph of the [parameter-readout] element, as
    [addInfoReadoutParameterItem] writes it:
    [<p name="param-NAME">LABEL: <span name="NAME-value"></span></p>],
    for a NAME of [name_chars] and a LABEL that is [html_text]. *)
Record Slot := mkSlot {
  paragraph_name : string;
  label : string;
  span_name : string;
  innerHTML : option JSNumber          (* None: the span is still empty *)
}.

(** The part of the page the engine writes to, with the engine's
    [lastFrameTime] (milliseconds, a [Date.now()] reading), which only
    [calcFPS] uses. *)
Record Page := mkPage {
  parameter_readout : list Slot;       (* children of #parameter-readout *)
  info_readout : list string;          (* paragraphs of #info-readout *)
  lastFrameTime : Z
}.

(** A method that may throw: [None] is a thrown error (a [SyntaxError] or
    a [TypeError]), and the page is as the method left it at the throw. *)
Definition Script (A : Type) : Type := Page -> option A * Page.

Definition andThen {A B} (m : Script A) (k : A -> Script B) : Script B :=
  fun p =>
    match m p with
    | (Some a, p') => k a p'
    | (None, p') => (None, p')
    end.

(** [getChildElementsByName(parent, name)], that is
    [parent.querySelector(`span[name=${name}]`)].  The name is put into the
    selector unquoted, where the value of an attribute has to be an
    identifier: when it is not, [querySelector] throws a [SyntaxError]
    ([None]); when it is, the result is the first span of that name in
    document order, or [null] ([Some None]).  This is what happens for a
    text of [name_chars]; a text with another character (a quote, a
    bracket, a backslash, a blank) is read by the CSS tokenizer, which is
    not embedded: where names are quantified over, they are of
    [name_chars]. *)
Definition getChildElementsByName (parent : list Slot) (name : string)
    : option (option (nat * Slot)) :=
  if is_identifier name
  then Some (list_find (fun s => span_name s = name) parent)
  else None.

(** [addInfoReadoutParameterItem(name, prettyName = name)]: one more
    paragraph at the end of the readout (for a name of [name_chars] and a
    label that is [html_text]: other texts are markup of their own). *)
Definition addInfoReadoutParameterItem (name : string)
    (prettyName : option string) : Script unit :=
  fun p =>
    (Some tt,
     mkPage (parameter_readout p
               ++ [mkSlot ("param-" ++ name) (default name prettyName)
                     (name ++ "-value") None])
       (info_readout p) (lastFrameTime p)).

(** [addInfoReadoutTextItem(value)] *)
Definition addInfoReadoutTextItem (value : string) : Script unit :=
  fun p =>
    (Some tt,
     mkPage (parameter_readout p) (info_readout p ++ [value])
       (lastFrameTime p)).

(** [updateInfoParameterValue(name, value)]: the [SyntaxError] of the
    selection is not caught, and assigning [innerHTML] on the [null] that
    [querySelector] returns for an unknown name throws a [TypeError]. *)
Definition updateInfoParameterValue (name : string) (value : JSNumber)
    : Script unit :=
  fun p =>
    match getChildElementsByName (parameter_readout p) (name ++ "-value") with
    | Some (Some (i, element)) =>
        (Some tt,
         mkPage (<[i := mkSlot (paragraph_name element) (label element)
                          (span_name element) (Some value)]>
                   (parameter_readout p))
           (info_readout p) (lastFrameTime p))
    | Some None => (None, p)
    | None => (None, p)
    end.

(** [calcFPS()]; [now1] and [now2] are its two [Date.now()] readings. *)
Definition calcFPS (now1 now2 : Z) : Script JSNumber :=
  fun p =>
    let delta := inject_Z (now1 - lastFrameTime p) / 1000 in
    (Some (if Qeq_bool delta 0 then PosInfinity else Finite (1 / delta)),
     mkPage (parameter_readout p) (info_readout p) now2).


(** The panel as the script sets it up; [now] is the clock reading of the
    engine's constructor. *)
Definition scriptPage (now : Z) : Page :=
  snd (andThen (addInfoReadoutParameterItem "fps" (Some "FPS")) (fun _ =>
       andThen (addInfoReadoutParameterItem "rigid-bodies"
                  (Some "Rigid Bodies")) (fun _ =>
       andThen (addInfoReadoutParameterItem "triangles" (Some "Triangles"))
               (fun _ =>
       andThen (addInfoReadoutTextItem "B to make a box") (fun _ =>
       andThen (addInfoReadoutTextItem "C to make a capsule") (fun _ =>
       andThen (addInfoReadoutTextItem "S to make a sphere") (fun _ =>
       andThen (addInfoReadoutTextItem "Space is random") (fun _ =>
       andThen (addInfoReadoutTextItem "F to toggle floor") (fun _ =>
       andThen (addInfoReadoutTextItem "G to toggle auto") (fun _ =>
       addInfoReadoutTextItem "R to reset")))))))))
         (mkPage [] [] now)).

(** What the panel shows under [name]: nothing that can be selected
    ([None]), an empty span, or the last value written. *)
Definition shown (name : string) (p : Page) : option (option JSNumber) :=
  match getChildElementsByName (parameter_readout p) (name ++ "-value") with
  | Some (Some (_, element)) => Some (innerHTML element)
  | Some None => None
  | None => None
  end.

(** A span is registered under [name]. *)
Definition registeredName (name : string) (p : Page) : Prop :=
  (name ++ "-value")%string ∈ span_name <$> parameter_readout p.

(** * Properties *)

Set Warnings "-clear-no-such-hyp".

(** ** The random parameter generator *)

Lemma high_random_unit : unit_interval high_random.
Proof. intros n. unfold high_random. split; [discriminate | reflexivity]. Qed.

Lemma cyclic_random_unit : unit_interval cyclic_random.
Proof.
  intros n. unfold cyclic_random, Qle, Qlt. simpl.
  pose proof (Nat.mod_upper_bound n 10). lia.
Qed.

Ltac params_simpl :=
  cbv zeta in *;
  cbn [randomColor randomScale randomRadius randomLength randomX randomY
       randomZ randomMass randomQuaternion qx qy qz qw] in *.

Section ParamsFacts.

Variable random : nat -> Q.
Hypothesis random_unit : unit_interval random.

Lemma generateRandomObjectParams_calls n :
  snd (generateRandomObjectParams random n) = (n + 10)%nat.
Proof. cbn. lia. Qed.

(** The values of one parameter set in terms of the ten draws. *)
Lemma generateRandomObjectParams_eval n :
  fst (generateRandomObjectParams random n) =
  let s := 0.75 + random (1 + n)%nat * 1 in
  mkRandomParams
    (random n * 16777215) s (s * 0.75)
    (1 + random (2 + n)%nat * 2)
    (-5 + random (3 + n)%nat * 5)
    (20 + random (4 + n)%nat * 25)
    (-5 + random (5 + n)%nat * 5)
    (5 + random (6 + n)%nat * (5 + s))
    (mkQuat (0 + random (7 + n)%nat * 360) (0 + random (8 + n)%nat * 360)
       (random (9 + n)%nat * 360) 1).
Proof. reflexivity. Qed.

End ParamsFacts.

(** C1: the mass leaves the stated range.  With every draw at
    63/64 = 0.984375 the scale is 1.734375 and the call
    [randomFloat(5 + randomScale, 5)] returns
    5 + 0.984375 * 6.734375 = 11.629150390625.  That is above 10.75, the
    end of the stated range, and above 6.734375, the call's own first
    argument, which the comment of [randomFloat] gives as the upper end of
    what it returns. *)
Theorem generateRandomObjectParams_mass_exceeds :
  unit_interval high_random /\
  let rp := fst (generateRandomObjectParams high_random 0%nat) in
  randomScale rp == 1.734375 /\
  randomMass rp
    = eval (Util.randomFloat high_random (5 + randomScale rp) 5) 6%nat /\
  randomMass rp == 11.629150390625 /\
  ~ randomMass rp <= 5 + randomScale rp /\
  ~ randomMass rp < 10.75 /\
  ~ in_ranges 10.75 rp.
Proof.
  split; [exact high_random_unit |]. cbv zeta.
  split; [reflexivity |]. split; [reflexivity |]. split; [reflexivity |].
  split; [| split].
  - intros H. vm_compute in H. by apply H.
  - intros H. vm_compute in H. discriminate H.
  - unfold in_ranges. intros (_ & _ & _ & _ & _ & _ & [_ H] & _).
    vm_compute in H. discriminate H.
Qed.

(** The same draws in binary64 arithmetic: the mass exceeds 10.75 there
    too (63/64 is a binary64 number). *)
Example randomMass_exceeds_binary64 : Binary64.mass_above_10_75 = true.
Proof. vm_compute. reflexivity. Qed.

(** ** Rounded arithmetic *)

Lemma exact_arithmetic_rounding : rounding exact_arithmetic.
Proof. split; [by intros x y H | by intros x _]. Qed.

(** With the rounding that changes nothing, the rounded generators are
    those of the exact model. *)
Lemma Rounded_exact (random : nat -> Q) :
  Rounded.randomFloat exact_arithmetic random = Util.randomFloat random /\
  Rounded.random8BitColor exact_arithmetic random
    = Util.random8BitColor random /\
  Rounded.generateRandomObjectParams exact_arithmetic random
    = generateRandomObjectParams random.
Proof. repeat split; reflexivity. Qed.

Section Rounding.

Variable fl : Q -> Q.
Hypothesis fl_rounding : rounding fl.

Lemma rounding_compat x y : x == y -> fl x == fl y.
Proof.
  intros H. apply Qle_antisym; apply (rounding_mono fl fl_rounding);
    rewrite H; apply Qle_refl.
Qed.

Lemma dyadic_representable x : dyadic x -> representable fl x.
Proof. apply (rounding_exact fl fl_rounding). Qed.

(** A result between two doubles is rounded to a number between them. *)
Lemma rounding_between lo hi x :
  representable fl lo -> representable fl hi ->
  lo <= x -> x <= hi -> lo <= fl x /\ fl x <= hi.
Proof.
  unfold representable. intros Hlo Hhi H1 H2.
  pose proof (rounding_mono fl fl_rounding _ _ H1) as L.
  pose proof (rounding_mono fl fl_rounding _ _ H2) as U.
  rewrite Hlo in L. rewrite Hhi in U. by split.
Qed.

End Rounding.

Ltac dyadic_tac n k :=
  exists n, k; split; [lia | split; [lia | reflexivity]].

Lemma dyadic_0 : dyadic 0.
Proof. dyadic_tac 0%Z 0%nat. Qed.
Lemma dyadic_1 : dyadic 1.
Proof. dyadic_tac 1%Z 0%nat. Qed.
Lemma dyadic_0_75 : dyadic 0.75.
Proof. dyadic_tac 3%Z 2%nat. Qed.
Lemma dyadic_1_75 : dyadic 1.75.
Proof. dyadic_tac 7%Z 2%nat. Qed.
Lemma dyadic_0_5625 : dyadic 0.5625.
Proof. dyadic_tac 9%Z 4%nat. Qed.
Lemma dyadic_1_3125 : dyadic 1.3125.
Proof. dyadic_tac 21%Z 4%nat. Qed.

(** The scale and the radius of one parameter set, in any rounding: the
    ends of the ranges are included. *)
Lemma Rounded_radius_range (fl : Q -> Q) (fl_rounding : rounding fl)
    (random : nat -> Q) (random_unit : unit_interval random) (n : nat) :
  let rp := eval (Rounded.generateRandomObjectParams fl random) n in
  randomRadius rp = fl (randomScale rp * 0.75) /\
  (0.75 <= randomScale rp /\ randomScale rp <= 1.75) /\
  (0.5625 <= randomRadius rp /\ randomRadius rp <= 1.3125).
Proof.
  cbv zeta.
  change (randomScale (eval (Rounded.generateRandomObjectParams fl random) n))
    with (fl (0.75 + fl (random (1 + n)%nat * 1))).
  change (randomRadius (eval (Rounded.generateRandomObjectParams fl random) n))
    with (fl (fl (0.75 + fl (random (1 + n)%nat * 1)) * 0.75)).
  pose proof (random_unit (1 + n)%nat) as [H0 H1].
  set (u := random (1 + n)%nat) in *. clearbody u.
  pose proof (dyadic_representable fl fl_rounding) as Hrep.
  destruct (rounding_between fl fl_rounding 0 1 (u * 1)
              (Hrep _ dyadic_0) (Hrep _ dyadic_1)) as [Hm0 Hm1]; [lra | lra |].
  set (m := fl (u * 1)) in *. clearbody m.
  destruct (rounding_between fl fl_rounding 0.75 1.75 (0.75 + m)
              (Hrep _ dyadic_0_75) (Hrep _ dyadic_1_75)) as [Hs0 Hs1];
    [lra | lra |].
  set (s := fl (0.75 + m)) in *. clearbody s.
  destruct (rounding_between fl fl_rounding 0.5625 1.3125 (s * 0.75)
              (Hrep _ dyadic_0_5625) (Hrep _ dyadic_1_3125)) as [Hr0 Hr1];
    [lra | lra |].
  repeat split; done.
Qed.

(** One [randomFloat(max, min)] in any rounding, for a draw [u] and a
    first argument of at most [B]. *)
Lemma randomFloat_between (fl : Q -> Q) (fl_rounding : rounding fl)
    (u max B min : Q) :
  0 <= u -> u < 1 -> 0 <= max -> max <= B ->
  representable fl 0 -> representable fl B ->
  representable fl min -> representable fl (min + B) ->
  min <= fl (min + fl (u * max)) /\ fl (min + fl (u * max)) <= min + B.
Proof.
  intros H0 H1 Hmax HB R0 RB Rmin Rsum.
  assert (Hlo : 0 <= u * max) by by apply Qmult_le_0_compat.
  assert (Hhi : u * max <= max).
  { assert (H : 0 <= (1 - u) * max) by (apply Qmult_le_0_compat; lra).
    lra. }
  destruct (rounding_between fl fl_rounding 0 B (u * max) R0 RB)
    as [Hm0 Hm1]; [lra | lra |].
  set (m := fl (u * max)) in *. clearbody m.
  apply (rounding_between fl fl_rounding min (min + B)); [done | done | lra..].
Qed.

(** ** The state monad *)

Lemma exec_bind {S A B} (m : State S A) (k : A -> State S B) s :
  exec (bind m k) s = exec (k (eval m s)) (exec m s).
Proof. unfold exec, eval, bind. destruct (m s); reflexivity. Qed.

Lemma eval_bind {S A B} (m : State S A) (k : A -> State S B) s :
  eval (bind m k) s = eval (k (eval m s)) (exec m s).
Proof. unfold exec, eval, bind. destruct (m s); reflexivity. Qed.

Lemma exec_zoom {S T A} (proj : S -> T) inj (m : State T A) s :
  exec (zoom proj inj m) s = inj (exec m (proj s)) s.
Proof. unfold exec, zoom. destruct (m (proj s)); reflexivity. Qed.

Lemma eval_zoom {S T A} (proj : S -> T) inj (m : State T A) s :
  eval (zoom proj inj m) s = eval m (proj s).
Proof. unfold eval, zoom. destruct (m (proj s)); reflexivity. Qed.

(** ** The per-frame sync *)

Section Sync.

Variable stepSimulation :
  Q -> nat -> btDiscreteDynamicsWorld ->
  gmap nat btRigidBody -> gmap nat btRigidBody.

(** The loop of [updatePhysics], started at index [length pre] on a
    registry [pre ++ l]: the meshes of [l] are replaced by their synced
    versions, one transform write is logged per mesh with a motion
    state, and neither the bodies nor the world nor the scene change. *)
Lemma forEach_syncOne (l : list Mesh) :
  forall (pre : list Mesh) (e : Engine),
    rigidBodies e = pre ++ l ->
    let e' := exec (forEach_from l (length pre) syncOne) e in
    rigidBodies e' = pre ++ (synced (memory (Ammo e)) <$> l) /\
    Ammo e' = Ammo e /\
    physicsUniverse e' = physicsUniverse e /\
    trace e' = trace e ++ syncEffects (memory (Ammo e)) l /\
    scene e' = scene e /\
    renderCallback e' = renderCallback e /\
    objectCount e' = objectCount e.
Proof.
  induction l as [| x l IH]; intros pre e Hreg; cbn zeta.
  - cbn. rewrite app_nil_r in Hreg. rewrite ?app_nil_r.
    repeat split; done.
  - cbn [forEach_from]. rewrite exec_bind.
    set (e1 := exec (syncOne x (length pre)) e).
    assert (Hstep :
      rigidBodies e1 = (pre ++ [synced (memory (Ammo e)) x]) ++ l /\
      Ammo e1 = Ammo e /\
      physicsUniverse e1 = physicsUniverse e /\
      trace e1 = trace e ++ syncEffects (memory (Ammo e)) [x] /\
      scene e1 = scene e /\ renderCallback e1 = renderCallback e /\
      objectCount e1 = objectCount e).
    { subst e1. unfold syncOne, synced, syncEffects. cbn [omap list_omap].
      unfold exec, bind, get, modify, emit. cbn.
      destruct (getMotionState (memory (Ammo e)) (physicsBody x)) as [t |];
        cbn.
      - rewrite Hreg. repeat split; try reflexivity.
        rewrite insert_app_r_alt by lia.
        rewrite Nat.sub_diag. cbn. by rewrite <- app_assoc.
      - rewrite Hreg, app_nil_r. repeat split; try reflexivity.
        by rewrite <- app_assoc. }
    destruct Hstep as (H1 & H2 & H3 & H4 & H5 & H6 & H7).
    specialize (IH (pre ++ [synced (memory (Ammo e)) x]) e1 H1).
    rewrite length_app in IH. cbn [length] in IH.
    replace (length pre + 1)%nat with (S (length pre)) in IH by lia.
    cbn zeta in IH. destruct IH as (I1 & I2 & I3 & I4 & I5 & I6 & I7).
    rewrite I1, I2, I3, I4, I5, I6, I7, H2, H3, H4, H5, H6, H7.
    repeat split; try reflexivity.
    + rewrite <- app_assoc. reflexivity.
    + rewrite <- app_assoc. f_equal. unfold syncEffects. cbn [omap list_omap].
      destruct (getMotionState (memory (Ammo e)) (physicsBody x));
        reflexivity.
Qed.

(** One call of [updatePhysics]: the bodies are stepped once with ten
    sub-steps, then every mesh of the registry is synced against the
    stepped bodies. *)
Lemma updatePhysics_spec (deltaTime : Q) (e : Engine) :
  let mem' :=
    stepSimulation deltaTime 10 (physicsUniverse e) (memory (Ammo e)) in
  let e' := exec (updatePhysics stepSimulation deltaTime) e in
  rigidBodies e' = synced mem' <$> rigidBodies e /\
  Ammo e' = mkAmmo mem' (brk (Ammo e)) /\
  physicsUniverse e' = physicsUniverse e /\
  trace e' = trace e ++ physics_stepSimulation deltaTime 10
                          :: syncEffects mem' (rigidBodies e) /\
  scene e' = scene e /\
  renderCallback e' = renderCallback e /\
  objectCount e' = objectCount e.
Proof.
  cbn zeta. unfold updatePhysics, forEach.
  rewrite !exec_bind.
  set (e1 := exec (emit _) _).
  change (eval get e1) with e1.
  change (exec get e1) with e1.
  pose proof (forEach_syncOne (rigidBodies e1) [] e1 eq_refl) as H.
  cbn zeta in H. cbn [length app] in H.
  destruct H as (I1 & I2 & I3 & I4 & I5 & I6 & I7).
  rewrite I1, I2, I3, I4, I5, I6, I7. subst e1.
  unfold exec, emit, modify; cbn. rewrite <- app_assoc.
  repeat split; done.
Qed.

(** One call of [render]. *)
Lemma render_spec (deltaTime : Q) (e : Engine) :
  let mem' :=
    stepSimulation deltaTime 10 (physicsUniverse e) (memory (Ammo e)) in
  let e' := exec (render stepSimulation deltaTime) e in
  rigidBodies e' = synced mem' <$> rigidBodies e /\
  Ammo e' = mkAmmo mem' (brk (Ammo e)) /\
  physicsUniverse e' = physicsUniverse e /\
  trace e' = trace e ++ [clock_getDelta deltaTime;
                         physics_stepSimulation deltaTime 10]
               ++ syncEffects mem' (rigidBodies e) ++ frameTail e /\
  scene e' = scene e /\
  renderCallback e' = renderCallback e /\
  objectCount e' = objectCount e.
Proof.
  cbn zeta. unfold render. rewrite !exec_bind.
  set (e0 := exec (emit (clock_getDelta deltaTime)) e).
  pose proof (updatePhysics_spec deltaTime e0) as H.
  cbn zeta in H. destruct H as (I1 & I2 & I3 & I4 & I5 & I6 & I7).
  set (e1 := exec (updatePhysics stepSimulation deltaTime) e0) in *.
  change (eval get e1) with e1. change (exec get e1) with e1.
  set (e2 := exec (emit (renderer_render (scene e1))) e1).
  change (eval get e2) with e2. change (exec get e2) with e2.
  assert (H2 : rigidBodies e2 = rigidBodies e1 /\ Ammo e2 = Ammo e1 /\
               physicsUniverse e2 = physicsUniverse e1 /\
               trace e2 = trace e1 ++ [renderer_render (scene e1)] /\
               scene e2 = scene e1 /\ renderCallback e2 = renderCallback e1 /\
               objectCount e2 = objectCount e1)
    by (repeat split; reflexivity).
  destruct H2 as (J1 & J2 & J3 & J4 & J5 & J6 & J7).
  assert (H0 : rigidBodies e0 = rigidBodies e /\ Ammo e0 = Ammo e /\
               physicsUniverse e0 = physicsUniverse e /\
               trace e0 = trace e ++ [clock_getDelta deltaTime] /\
               scene e0 = scene e /\ renderCallback e0 = renderCallback e /\
               objectCount e0 = objectCount e)
    by (repeat split; reflexivity).
  destruct H0 as (K1 & K2 & K3 & K4 & K5 & K6 & K7).
  unfold frameTail.
  rewrite J6, I6, K6.
  destruct (renderCallback e) as [c |]; unfold call, emit, modify, exec, ret;
    cbn [snd fst rigidBodies Ammo physicsUniverse trace scene renderCallback
         objectCount set_trace];
    rewrite ?J1, ?J2, ?J3, ?J4, ?J5, ?J6, ?J7, ?I1, ?I2, ?I3, ?I4, ?I5, ?I6,
      ?I7, ?K1, ?K2, ?K3, ?K4, ?K5, ?K6, ?K7;
    repeat split; try reflexivity;
    rewrite <- ?app_assoc; cbn [app]; reflexivity.
Qed.

End Sync.

(** C3: after one [updatePhysics], a registry object whose body has a
    motion state carries, as its visual position and quaternion, the origin
    and rotation that motion state reports after the step; the object keeps
    its identity, name and body.  The sync is one-way: the bodies after it
    are exactly the stepped bodies, computed from the world and the bodies
    alone, and the world itself is unchanged. *)
Theorem updatePhysics_visual_equals_physics
    (stepSimulation :
       Q -> nat -> btDiscreteDynamicsWorld ->
       gmap nat btRigidBody -> gmap nat btRigidBody)
    (deltaTime : Q) (e : Engine) (i : nat) (m : Mesh) (t : btTransform) :
  let e' := exec (updatePhysics stepSimulation deltaTime) e in
  rigidBodies e !! i = Some m ->
  getMotionState (memory (Ammo e')) (physicsBody m) = Some t ->
  (exists m',
     rigidBodies e' !! i = Some m' /\
     uuid m' = uuid m /\ name m' = name m /\
     physicsBody m' = physicsBody m /\
     position m' = SetXYZ (vx (getOrigin t)) (vy (getOrigin t))
                     (vz (getOrigin t)) /\
     quaternion m' = Some (getRotation t)) /\
  memory (Ammo e') =
    stepSimulation deltaTime 10%nat (physicsUniverse e) (memory (Ammo e)) /\
  physicsUniverse e' = physicsUniverse e.
Proof.
  intros e' Hi Ht.
  pose proof (updatePhysics_spec stepSimulation deltaTime e) as H.
  cbn zeta in H. fold e' in H. destruct H as (H1 & H2 & H3 & _).
  split; [| split; [by rewrite H2 | exact H3]].
  exists (set_transform_of (getOrigin t) (getRotation t) m).
  split; [| repeat split; reflexivity].
  rewrite H1, list_lookup_fmap, Hi. cbn. unfold synced.
  rewrite H2 in Ht. cbn in Ht. rewrite Ht. reflexivity.
Qed.

Lemma updatePhysics_visual_equals_physics_witness :
  let e' := exec (updatePhysics demo_step 1) demo_engine in
  (exists m',
     rigidBodies e' !! 1%nat = Some m' /\
     uuid m' = 1%nat /\ name m' = "sphere" /\
     physicsBody m' = 1%nat /\
     position m' = SetXYZ 0 (20 - 1) 0 /\
     quaternion m' = Some (mkQuat 0 0 0 1)) /\
  memory (Ammo e') =
    demo_step 1 10 (physicsUniverse demo_engine) (memory (Ammo demo_engine)) /\
  physicsUniverse e' = physicsUniverse demo_engine.
Proof.
  exact (updatePhysics_visual_equals_physics demo_step 1 demo_engine 1
           (demo_mesh 1 1)
           (mkTransform (mkVec3 0 (20 - 1) 0) (mkQuat 0 0 0 1))
           eq_refl eq_refl).
Defined.

(** C4: one tick of [render] reads the clock, steps the physics world by
    that delta with 10 sub-steps, writes the stepped transforms onto the
    registry's meshes in registry order, renders the scene, calls the
    callback without arguments when one is installed, and requests the
    next frame, in this order and with nothing else in between. *)
Theorem render_order
    (stepSimulation :
       Q -> nat -> btDiscreteDynamicsWorld ->
       gmap nat btRigidBody -> gmap nat btRigidBody)
    (deltaTime : Q) (e : Engine) :
  let mem' :=
    stepSimulation deltaTime 10%nat (physicsUniverse e) (memory (Ammo e)) in
  let e' := exec (render stepSimulation deltaTime) e in
  trace e' =
    trace e
      ++ [clock_getDelta deltaTime; physics_stepSimulation deltaTime 10]
      ++ syncEffects mem' (rigidBodies e)
      ++ [renderer_render (scene e)]
      ++ match renderCallback e with
         | Some c => [callback_call c []]
         | None => []
         end
      ++ [requestAnimationFrame] /\
  memory (Ammo e') = mem' /\
  rigidBodies e' = synced mem' <$> rigidBodies e.
Proof.
  pose proof (render_spec stepSimulation deltaTime e) as H.
  cbn zeta in *. destruct H as (H1 & H2 & H3 & H4 & _).
  rewrite H1, H2, H4. unfold frameTail. repeat split; reflexivity.
Qed.

(** C6: when the body of a registry object has no motion state, one frame
    leaves that object as it was and writes nothing on it; every registry
    object whose body has a motion state still gets the origin and the
    rotation of the stepped body as its position and quaternion, and keeps
    its identity, name and body; and the frame runs to its end: after the
    transform writes of the objects before and after the skipped one, in
    registry order, the scene is rendered, the callback (when installed)
    is called and the next frame is requested. *)
Theorem render_skips_missing_motion_state
    (stepSimulation :
       Q -> nat -> btDiscreteDynamicsWorld ->
       gmap nat btRigidBody -> gmap nat btRigidBody)
    (deltaTime : Q) (e : Engine) (i : nat) (m : Mesh) :
  let mem' :=
    stepSimulation deltaTime 10%nat (physicsUniverse e) (memory (Ammo e)) in
  let e' := exec (render stepSimulation deltaTime) e in
  rigidBodies e !! i = Some m ->
  getMotionState mem' (physicsBody m) = None ->
  rigidBodies e' !! i = Some m /\
  (forall j m' t,
      rigidBodies e !! j = Some m' ->
      getMotionState mem' (physicsBody m') = Some t ->
      exists m'',
        rigidBodies e' !! j = Some m'' /\
        uuid m'' = uuid m' /\ name m'' = name m' /\
        physicsBody m'' = physicsBody m' /\
        position m'' = SetXYZ (vx (getOrigin t)) (vy (getOrigin t))
                         (vz (getOrigin t)) /\
        quaternion m'' = Some (getRotation t)) /\
  length (rigidBodies e') = length (rigidBodies e) /\
  trace e' =
    trace e
      ++ [clock_getDelta deltaTime; physics_stepSimulation deltaTime 10]
      ++ syncEffects mem' (take i (rigidBodies e))
      ++ syncEffects mem' (drop (S i) (rigidBodies e))
      ++ [renderer_render (scene e)]
      ++ match renderCallback e with
         | Some c => [callback_call c []]
         | None => []
         end
      ++ [requestAnimationFrame].
Proof.
  intros mem' e' Hi Hnone.
  pose proof (render_spec stepSimulation deltaTime e) as H.
  cbn zeta in H. fold mem' e' in H. destruct H as (H1 & _ & _ & H4 & _).
  split; [| split; [| split]].
  - rewrite H1, list_lookup_fmap, Hi. cbn. unfold synced.
    by rewrite Hnone.
  - intros j m' t Hj Ht.
    exists (set_transform_of (getOrigin t) (getRotation t) m').
    split; [| repeat split; reflexivity].
    rewrite H1, list_lookup_fmap, Hj. cbn. unfold synced. by rewrite Ht.
  - by rewrite H1, length_fmap.
  - rewrite H4. unfold frameTail.
    rewrite <- (take_drop_middle (rigidBodies e) i m Hi) at 1.
    unfold syncEffects. rewrite omap_app. cbn [omap list_omap].
    rewrite Hnone. rewrite <- !app_assoc. reflexivity.
Qed.

Lemma render_skips_missing_motion_state_witness :
  let e' := exec (render demo_step 1) demo_engine in
  rigidBodies e' !! 0%nat = Some (demo_mesh 0 0) /\
  (exists m'',
     rigidBodies e' !! 1%nat = Some m'' /\
     uuid m'' = 1%nat /\ name m'' = "sphere" /\ physicsBody m'' = 1%nat /\
     position m'' = SetXYZ 0 (20 - 1) 0 /\
     quaternion m'' = Some (mkQuat 0 0 0 1)) /\
  last (trace e') = Some requestAnimationFrame.
Proof.
  pose proof (render_skips_missing_motion_state demo_step 1 demo_engine 0
                (demo_mesh 0 0) eq_refl eq_refl) as (H0 & Hall & _ & _).
  split; [exact H0 |].
  split; [| reflexivity].
  exact (Hall 1%nat (demo_mesh 1 1)
           (mkTransform (mkVec3 0 (20 - 1) 0) (mkQuat 0 0 0 1))
           eq_refl eq_refl).
Defined.

(** ** The removal loop *)

Section RemoveLoop.

Variable test : Mesh -> bool.

Lemma filter_all {A} (P : A -> Prop) `{!forall x, Decision (P x)}
    (l : list A) :
  (forall x, P x) -> filter P l = l.
Proof.
  intros HP. induction l as [| x l IH]; [done |].
  by rewrite filter_cons_True, IH.
Qed.

Lemma forEach_removeBody (l : list Mesh) :
  forall (pre : list (option Mesh)) (e : Engine),
    let r := exec (forEach_from l (length pre) (removeBody test))
               (pre ++ (Some <$> l), e) in
    r.1 = pre ++ (slot test <$> l) /\
    rigidBodies r.2 = rigidBodies e /\
    scene r.2 =
      filter (λ c, c ∉ uuid <$> filter (λ m, test m) l) (scene e) /\
    collisionObjects (physicsUniverse r.2) =
      collisionObjects (physicsUniverse e)
        ∖ list_to_set (physicsBody <$> filter (λ m, test m) l) /\
    untouched e r.2.
Proof.
  induction l as [| x l IH]; intros pre e; cbn zeta.
  - cbn. rewrite app_nil_r.
    repeat split; try done.
    + symmetry. apply filter_all. intros c. set_solver.
    + set_solver.
  - cbn [forEach_from]. rewrite exec_bind.
    set (s1 := exec (removeBody test x (length pre)) (pre ++ (Some <$> x :: l), e)).
    assert (Hs1 : s1 =
      ((pre ++ [slot test x]) ++ (Some <$> l),
       if test x then
         set_physicsUniverse
           (removeCollisionObject (physicsBody x) (physicsUniverse e))
           (set_scene (filter (λ c, c ≠ uuid x) (scene e)) e)
       else e)).
    { subst s1. unfold removeBody, slot. destruct (test x); cbn.
      - unfold exec, bind, zoom, scene_remove, modify. cbn.
        f_equal. rewrite insert_app_r_alt by lia.
        rewrite Nat.sub_diag. cbn. by rewrite <- app_assoc.
      - unfold exec, ret. cbn. f_equal. by rewrite <- app_assoc. }
    rewrite Hs1.
    specialize (IH (pre ++ [slot test x])
      (if test x then
         set_physicsUniverse
           (removeCollisionObject (physicsBody x) (physicsUniverse e))
           (set_scene (filter (λ c, c ≠ uuid x) (scene e)) e)
       else e)).
    rewrite length_app in IH. cbn [length] in IH.
    replace (length pre + 1)%nat with (S (length pre)) in IH by lia.
    cbn zeta in IH. destruct IH as (I1 & I2 & I3 & I4 & I5).
    rewrite I1, I2, I3, I4. clear I1 I2 I3 I4.
    rewrite filter_cons.
    destruct (test x) eqn:Htest; cbn.
    + rewrite decide_True by done. cbn.
      repeat split.
      * by rewrite <- app_assoc.
      * rewrite list_filter_filter. apply list_filter_iff.
        intros c. set_solver.
      * set_solver.
      * apply I5.
      * apply I5.
      * apply I5.
      * apply I5.
      * apply I5.
      * apply I5.
    + rewrite decide_False by (cbn; tauto).
      repeat split; try apply I5; try done. by rewrite <- app_assoc.
Qed.

Lemma omap_slot (l : list Mesh) :
  omap id (slot test <$> l) = filter (λ m, ¬ test m) l.
Proof.
  induction l as [| x l IH]; [done |].
  rewrite filter_cons, <- IH. cbn. unfold slot at 1.
  destruct (test x); cbn.
  - by rewrite decide_False by (intros HH; apply HH; done).
  - by rewrite decide_True by (cbn; tauto).
Qed.

(** The loop removes from the scene and from the world exactly the
    meshes that pass the test, and keeps the others in the registry, in
    their order. *)
Lemma removeLoop_spec (e : Engine) :
  let e' := exec (removeLoop test) e in
  rigidBodies e' = filter (λ m, ¬ test m) (rigidBodies e) /\
  scene e' =
    filter (λ c, c ∉ uuid <$> filter (λ m, test m) (rigidBodies e))
      (scene e) /\
  collisionObjects (physicsUniverse e') =
    collisionObjects (physicsUniverse e)
      ∖ list_to_set (physicsBody <$> filter (λ m, test m) (rigidBodies e)) /\
  untouched e e'.
Proof.
  cbn zeta.
  set (r := exec (forEach_from (rigidBodies e) 0 (removeBody test))
              (Some <$> rigidBodies e, e)).
  assert (Heq : exec (removeLoop test) e = set_rigidBodies (omap id r.1) r.2).
  { unfold removeLoop, forEach, exec at 1. fold r. by destruct r. }
  rewrite Heq.
  pose proof (forEach_removeBody (rigidBodies e) [] e) as H.
  cbn zeta in H. cbn [length app] in H. fold r in H.
  destruct H as (H1 & H2 & H3 & H4 & H5).
  cbn [rigidBodies scene physicsUniverse set_rigidBodies].
  rewrite H1, omap_slot.
  repeat split; try done; apply H5.
Qed.

End RemoveLoop.

(** ** The create methods *)

Lemma createBox_exec scale pos q m nm color e :
  exec (createBox scale pos q m nm color) e =
  spawnBox (match scale with
            | ScaleNumber s => mkVec3 s s s
            | ScaleObject v => v
            end) pos q m nm color e.
Proof. reflexivity. Qed.

Lemma createCapsule_exec radius length pos q m nm color e :
  exec (createCapsule radius length pos q m nm color) e =
  spawnCapsule radius length pos q m nm color e.
Proof. reflexivity. Qed.

Lemma createSphere_exec radius pos q m nm color e :
  exec (createSphere radius pos q m nm color) e =
  spawnSphere radius pos q m nm color e.
Proof. reflexivity. Qed.

Lemma makeFloor_exec e :
  exec makeFloor e =
  spawnBox (mkVec3 21 2 21) (mkVec3 0 0 0) (mkQuat 0 0 0 1) 0 "floor" 13421772
    (spawnBox (mkVec3 1 7 22) (mkVec3 11 2 0) (mkQuat 0 0 (-0.25) 1) 0 "floor"
       13421772
       (spawnBox (mkVec3 22 7 1) (mkVec3 0 2 (-11)) (mkQuat (-0.25) 0 0 1) 0
          "floor" 13421772
          (spawnBox (mkVec3 1 7 22) (mkVec3 (-11) 2 0) (mkQuat 0 0 0.25 1) 0
             "floor" 13421772
             (spawnBox (mkVec3 22 7 1) (mkVec3 0 2 11) (mkQuat 0.25 0 0 1) 0
                "floor" 13421772 e)))).
Proof. reflexivity. Qed.

(** ** The keypress handler, key by key *)

Section Keys.

Variable random : nat -> Q.

Local Notation "'params' a" := (paramsOf random a) (at level 10, a at level 9).

Lemma onKeypress_KeyS a :
  exec (onKeypress random "KeyS") a =
  set_E (spawnSphere (randomRadius (params a)) (positionOf (params a))
           (randomQuaternion (params a)) (randomMass (params a)) "sphere"
           (randomColor (params a)) (E a)) (drawn a).
Proof. reflexivity. Qed.

Lemma onKeypress_KeyB a :
  exec (onKeypress random "KeyB") a =
  set_E (spawnBox (let s := randomScale (params a) in mkVec3 s s s)
           (positionOf (params a))
           (randomQuaternion (params a)) (randomMass (params a)) "box"
           (randomColor (params a)) (E a)) (drawn a).
Proof. reflexivity. Qed.

Lemma onKeypress_KeyC a :
  exec (onKeypress random "KeyC") a =
  set_E (spawnCapsule (randomRadius (params a) / 2)
           (randomLength (params a)) (positionOf (params a))
           (randomQuaternion (params a)) (randomMass (params a)) "capsule"
           (randomColor (params a)) (E a)) (drawn a).
Proof. reflexivity. Qed.

Lemma onKeypress_KeyR a :
  exec (onKeypress random "KeyR") a =
  set_E (exec (removeLoop (fun m => negb (is_floor m))) (E a)) (drawn a).
Proof.
  unfold onKeypress. rewrite exec_bind. cbn [String.eqb Ascii.eqb Bool.eqb].
  unfold onE. rewrite exec_zoom. reflexivity.
Qed.

Lemma onKeypress_KeyF a :
  exec (onKeypress random "KeyF") a =
  if floorIsShowing a then
    set_floorIsShowing false
      (set_E (exec (removeLoop is_floor) (E a)) (drawn a))
  else
    set_floorIsShowing true (set_E (exec makeFloor (E a)) (drawn a)).
Proof.
  unfold onKeypress. rewrite exec_bind. cbn [String.eqb Ascii.eqb Bool.eqb].
  rewrite exec_bind.
  change (eval get ?s) with s. change (exec get ?s) with s.
  change (floorIsShowing (exec _ a)) with (floorIsShowing a).
  destruct (floorIsShowing a); cbn [negb]; rewrite exec_bind;
    unfold onE; rewrite exec_zoom; reflexivity.
Qed.

Lemma onKeypress_KeyG a :
  exec (onKeypress random "KeyG") a =
  match intervalRef a with
  | Some _ => set_intervalRef None (drawn a)
  | None =>
      set_intervalRef (Some (S (timers a)))
        (set_timers (S (timers a)) (drawn a))
  end.
Proof.
  unfold onKeypress. rewrite exec_bind. cbn [String.eqb Ascii.eqb Bool.eqb].
  rewrite exec_bind.
  change (eval get ?s) with s. change (exec get ?s) with s.
  change (intervalRef (exec _ a)) with (intervalRef a).
  destruct (intervalRef a); reflexivity.
Qed.

Lemma onKeypress_other code a :
  code ≠ "KeyS" -> code ≠ "KeyB" -> code ≠ "KeyC" -> code ≠ "Space" ->
  code ≠ "KeyR" -> code ≠ "KeyF" -> code ≠ "KeyG" ->
  exec (onKeypress random code) a = drawn a.
Proof.
  intros H1 H2 H3 H4 H5 H6 H7.
  unfold onKeypress. rewrite exec_bind.
  rewrite (proj2 (String.eqb_neq _ _) H1), (proj2 (String.eqb_neq _ _) H2),
    (proj2 (String.eqb_neq _ _) H3), (proj2 (String.eqb_neq _ _) H4),
    (proj2 (String.eqb_neq _ _) H5), (proj2 (String.eqb_neq _ _) H6),
    (proj2 (String.eqb_neq _ _) H7).
  reflexivity.
Qed.

End Keys.

(** ** The uniform choice among the three kinds *)

(** [Math.floor(u * 3)] for a draw [u] of the unit interval: 0 on the first
    third, 1 on the second, 2 on the last. *)
Lemma floor_thirds (u : Q) :
  0 <= u -> u < 1 ->
  Qfloor (u * 3) =
    match kindOfDraw u with capsule => 0 | sphere => 1 | box => 2 end%Z.
Proof.
  intros H0 H1.
  pose proof (Qfloor_le (u * 3)) as Hle.
  pose proof (Qlt_floor (u * 3)) as Hlt.
  assert (Hk : (0 <= Qfloor (u * 3) < 3)%Z).
  { split.
    - change 0%Z with (Qfloor 0). apply Qfloor_resp_le. lra.
    - apply Z.lt_nge. intros Hge.
      assert (3 <= inject_Z (Qfloor (u * 3))).
      { change 3 with (inject_Z 3). by rewrite <- Zle_Qle. }
      lra. }
  rewrite inject_Z_plus in Hlt. change (inject_Z 1) with 1 in Hlt.
  unfold kindOfDraw.
  destruct (Qlt_le_dec u (1 # 3)) as [Ha | Ha];
    [| destruct (Qlt_le_dec u (2 # 3)) as [Hb | Hb]].
  all: assert (Qfloor (u * 3) = 0 \/ Qfloor (u * 3) = 1 \/ Qfloor (u * 3) = 2)%Z
      as [E | [E | E]] by lia; rewrite E in *; try done;
      change (inject_Z 0) with 0 in *; change (inject_Z 1) with 1 in *;
      change (inject_Z 2) with 2 in *; lra.
Qed.

Section RandomObject.

Variable random : nat -> Q.
Hypothesis random_unit : unit_interval random.

(** [generateRandomObject(rp)]: one more draw picks the kind, and one
    object of that kind is spawned from [rp]. *)
Lemma generateRandomObject_exec (rp : RandomParams) (a : App) :
  exec (generateRandomObject random rp) a =
  set_E (spawnKind (kindOfDraw (random (randomCalls a))) rp (E a))
    (set_randomCalls (S (randomCalls a)) a).
Proof.
  pose proof (random_unit (randomCalls a)) as [H0 H1].
  pose proof (floor_thirds _ H0 H1) as Hf.
  unfold generateRandomObject. rewrite exec_bind.
  unfold onRandom. rewrite !eval_zoom, exec_zoom.
  change (eval (Util.randomInt random 3 0) (randomCalls a))
    with (0 + inject_Z (Qfloor (random (randomCalls a) * 3))).
  change (exec (Util.randomInt random 3 0) (randomCalls a))
    with (S (randomCalls a)).
  rewrite Hf.
  destruct (kindOfDraw (random (randomCalls a))).
  - change (Qeq_bool (0 + inject_Z 0) 0) with true. cbv iota.
    rewrite exec_bind. unfold onE. rewrite exec_zoom. reflexivity.
  - change (Qeq_bool (0 + inject_Z 1) 0) with false.
    change (Qeq_bool (0 + inject_Z 1) 1) with true. cbv iota.
    rewrite exec_bind. unfold onE. rewrite exec_zoom. reflexivity.
  - change (Qeq_bool (0 + inject_Z 2) 0) with false.
    change (Qeq_bool (0 + inject_Z 2) 1) with false.
    change (Qeq_bool (0 + inject_Z 2) 2) with true. cbv iota.
    rewrite exec_bind. unfold onE. rewrite exec_zoom. reflexivity.
Qed.

Lemma onKeypress_Space a :
  exec (onKeypress random "Space") a =
  set_E (spawnKind (kindOfDraw (random (10 + randomCalls a)%nat))
           (paramsOf random a) (E a))
    (set_randomCalls (11 + randomCalls a) a).
Proof.
  unfold onKeypress. rewrite exec_bind. cbn [String.eqb Ascii.eqb Bool.eqb].
  rewrite generateRandomObject_exec. reflexivity.
Qed.

Lemma intervalCallback_exec a :
  exec (intervalCallback random) a =
  set_E (spawnKind (kindOfDraw (random (10 + randomCalls a)%nat))
           (paramsOf random a) (E a))
    (set_randomCalls (11 + randomCalls a) a).
Proof.
  unfold intervalCallback. rewrite exec_bind.
  rewrite generateRandomObject_exec. reflexivity.
Qed.

End RandomObject.

(** ** Floor-named and other meshes under the lifecycle operations *)

Lemma not_negb_is_floor (m : Mesh) : ¬ negb (is_floor m) <-> is_floor m.
Proof. destruct (is_floor m); cbn; tauto. Qed.

Lemma floors_spawn g shape pos q ms nm color e :
  floors (spawn g shape pos q ms nm color e) =
  floors e ++ (if String.eqb nm "floor" then [newMesh e g pos nm color] else []).
Proof.
  unfold floors. cbn [rigidBodies spawn]. rewrite filter_app. f_equal.
  rewrite filter_cons, filter_nil.
  destruct (String.eqb nm "floor") eqn:Hnm.
  - by rewrite decide_True by (unfold is_floor; cbn; by rewrite Hnm).
  - by rewrite decide_False by (unfold is_floor; cbn; rewrite Hnm; cbn; tauto).
Qed.

Lemma nonFloors_spawn g shape pos q ms nm color e :
  nonFloors (spawn g shape pos q ms nm color e) =
  nonFloors e ++ (if String.eqb nm "floor" then [] else [newMesh e g pos nm color]).
Proof.
  unfold nonFloors. cbn [rigidBodies spawn]. rewrite filter_app. f_equal.
  rewrite filter_cons, filter_nil.
  destruct (String.eqb nm "floor") eqn:Hnm.
  - by rewrite decide_False by (unfold is_floor; cbn; rewrite Hnm; cbn; tauto).
  - by rewrite decide_True by (unfold is_floor; cbn; rewrite Hnm; cbn; tauto).
Qed.

Lemma floors_spawnKind k rp e : floors (spawnKind k rp e) = floors e.
Proof.
  destruct k; unfold spawnKind, spawnCapsule, spawnSphere, spawnBox;
    rewrite floors_spawn; cbn; by rewrite app_nil_r.
Qed.

Lemma removeLoop_nonFloor_registry e :
  rigidBodies (exec (removeLoop (fun m => negb (is_floor m))) e) = floors e.
Proof.
  pose proof (removeLoop_spec (fun m => negb (is_floor m)) e) as (H & _).
  rewrite H. apply list_filter_iff. intros m. apply not_negb_is_floor.
Qed.

Lemma removeLoop_floor_registry e :
  rigidBodies (exec (removeLoop is_floor) e) = nonFloors e.
Proof.
  pose proof (removeLoop_spec is_floor e) as (H & _). exact H.
Qed.

Lemma floors_floors (l : list Mesh) :
  filter (λ m, is_floor m) (filter (λ m, is_floor m) l)
  = filter (λ m, is_floor m) l.
Proof. rewrite list_filter_filter. apply list_filter_iff. tauto. Qed.

Lemma nonFloors_nonFloors (l : list Mesh) :
  filter (λ m, ¬ is_floor m) (filter (λ m, ¬ is_floor m) l)
  = filter (λ m, ¬ is_floor m) l.
Proof. rewrite list_filter_filter. apply list_filter_iff. tauto. Qed.

Lemma floors_of_nonFloors (l : list Mesh) :
  filter (λ m, is_floor m) (filter (λ m, ¬ is_floor m) l) = [].
Proof.
  rewrite list_filter_filter. induction l as [| x l IH]; [done |].
  rewrite filter_cons_False; tauto.
Qed.

Lemma nonFloors_of_floors (l : list Mesh) :
  filter (λ m, ¬ is_floor m) (filter (λ m, is_floor m) l) = [].
Proof.
  rewrite list_filter_filter. induction l as [| x l IH]; [done |].
  rewrite filter_cons_False; tauto.
Qed.

(** C2: key R leaves in the registry exactly the floor-named meshes, in
    their order, so that their count is unchanged and no other mesh is
    left; every mesh it drops is, in the same handler run, also taken out
    of the scene and its body out of the physics world, and nothing else
    leaves the scene or the world. *)
Theorem keyR_removes_non_floor (random : nat -> Q) (a : App) :
  let a' := exec (onKeypress random "KeyR") a in
  let removed := nonFloors (E a) in
  rigidBodies (E a') = floors (E a) /\
  floors (E a') = floors (E a) /\
  length (floors (E a')) = length (floors (E a)) /\
  nonFloors (E a') = [] /\
  (forall m, m ∈ removed ->
     (uuid m ∉ scene (E a')) /\
     (physicsBody m ∉ collisionObjects (physicsUniverse (E a'))) /\
     (m ∉ rigidBodies (E a'))) /\
  scene (E a') = filter (λ c, c ∉ uuid <$> removed) (scene (E a)) /\
  collisionObjects (physicsUniverse (E a')) =
    collisionObjects (physicsUniverse (E a))
      ∖ list_to_set (physicsBody <$> removed) /\
  floorIsShowing a' = floorIsShowing a.
Proof.
  intros a' removed. subst a'. rewrite onKeypress_KeyR.
  cbn [E set_E floorIsShowing drawn set_randomCalls].
  pose proof (removeLoop_spec (fun m => negb (is_floor m)) (E a))
    as (_ & Hs & Hw & _).
  pose proof (removeLoop_nonFloor_registry (E a)) as Hr.
  assert (Hrem : filter (λ m, negb (is_floor m)) (rigidBodies (E a)) = removed).
  { apply list_filter_iff. intros m. destruct (is_floor m); cbn; tauto. }
  rewrite Hrem in Hs, Hw.
  assert (Hf : floors (exec (removeLoop (λ m, negb (is_floor m))) (E a))
               = floors (E a)).
  { unfold floors at 1. rewrite Hr. apply floors_floors. }
  split; [exact Hr |]. split; [exact Hf |]. split; [by rewrite Hf |].
  split; [unfold nonFloors at 1; rewrite Hr; apply nonFloors_of_floors |].
  split; [| by repeat split].
  intros m Hm. pose proof Hm as Hm'.
  apply list_elem_of_filter in Hm' as [Hnf _]. repeat split.
  - rewrite Hs. intros Hin. apply list_elem_of_filter in Hin as [Hn _].
    apply Hn. by apply list_elem_of_fmap_2.
  - rewrite Hw. intros Hin. apply elem_of_difference in Hin as [_ Hn].
    apply Hn. apply elem_of_list_to_set. by apply list_elem_of_fmap_2.
  - rewrite Hr. intros Hin. apply list_elem_of_filter in Hin as [Hfl _].
    by apply Hnf.
Qed.

(** ** Spawning *)

Lemma spawnKind_registry k rp e :
  exists mesh body,
    rigidBodies (spawnKind k rp e) = rigidBodies e ++ [mesh] /\
    memory (Ammo (spawnKind k rp e)) !! physicsBody mesh = Some body /\
    name mesh = kindName k /\
    geometry mesh = kindGeometry k rp /\
    material mesh = randomColor rp /\
    mass body = randomMass rp /\
    motionState body =
      Some (mkTransform (positionOf rp) (randomQuaternion rp)).
Proof.
  destruct k; cbn;
    (eexists; eexists; split; [reflexivity |]; split;
     [apply lookup_insert_eq | repeat split; reflexivity]).
Qed.

Lemma kindOfDraw_thirds (u : Q) :
  (kindOfDraw u = capsule <-> u < 1 # 3) /\
  (kindOfDraw u = sphere <-> 1 # 3 <= u /\ u < 2 # 3) /\
  (kindOfDraw u = box <-> 2 # 3 <= u).
Proof.
  unfold kindOfDraw.
  destruct (Qlt_le_dec u (1 # 3)); [| destruct (Qlt_le_dec u (2 # 3))];
    repeat split; intros; try done; try lra.
Qed.

(** C7: Space spawns exactly one object.  Its kind is decided by one
    further draw [u] after the parameter set: capsule on [0, 1/3), sphere
    on [1/3, 2/3), box on [2/3, 1), a third of the unit interval each (so
    each kind has probability 1/3 under a uniform draw).  Whatever the
    kind, name apart, the object is built from the one parameter set drawn
    at the start of the handler: its color, mass, position and rotation. *)
Theorem space_spawns_one_uniform (random : nat -> Q)
    (random_unit : unit_interval random) (a : App) :
  let rp := paramsOf random a in
  let u := random (10 + randomCalls a)%nat in
  let a' := exec (onKeypress random "Space") a in
  E a' = spawnKind (kindOfDraw u) rp (E a) /\
  randomCalls a' = (randomCalls a + 11)%nat /\
  ((kindOfDraw u = capsule <-> u < 1 # 3) /\
   (kindOfDraw u = sphere <-> 1 # 3 <= u /\ u < 2 # 3) /\
   (kindOfDraw u = box <-> 2 # 3 <= u)) /\
  exists mesh body,
    rigidBodies (E a') = rigidBodies (E a) ++ [mesh] /\
    memory (Ammo (E a')) !! physicsBody mesh = Some body /\
    name mesh = kindName (kindOfDraw u) /\
    geometry mesh = kindGeometry (kindOfDraw u) rp /\
    material mesh = randomColor rp /\
    mass body = randomMass rp /\
    motionState body =
      Some (mkTransform (positionOf rp) (randomQuaternion rp)).
Proof.
  intros rp u a'. subst a'. rewrite (onKeypress_Space random random_unit).
  cbn [E set_E randomCalls set_randomCalls].
  split; [reflexivity |]. split; [lia |]. split; [apply kindOfDraw_thirds |].
  apply spawnKind_registry.
Qed.

Lemma space_spawns_one_uniform_witness :
  let a' := exec (onKeypress cyclic_random "Space") demo_app in
  E a' = spawnKind capsule (paramsOf cyclic_random demo_app) (E demo_app) /\
  randomCalls a' = 21%nat.
Proof.
  pose proof (space_spawns_one_uniform cyclic_random cyclic_random_unit
                demo_app) as (H1 & H2 & _).
  split; [exact H1 | exact H2].
Defined.

(** ** Capsules and spheres *)

Lemma spawnCapsule_registry radius length pos q m nm color e :
  exists mesh body,
    rigidBodies (spawnCapsule radius length pos q m nm color e)
      = rigidBodies e ++ [mesh] /\
    memory (Ammo (spawnCapsule radius length pos q m nm color e))
      !! physicsBody mesh = Some body /\
    geometry mesh = CapsuleGeometry radius length /\
    collisionShape body = btCapsuleShape radius length.
Proof.
  eexists; eexists; split; [reflexivity |]; split;
    [apply lookup_insert_eq | split; reflexivity].
Qed.

Lemma spawnSphere_registry radius pos q m nm color e :
  exists mesh body,
    rigidBodies (spawnSphere radius pos q m nm color e)
      = rigidBodies e ++ [mesh] /\
    memory (Ammo (spawnSphere radius pos q m nm color e))
      !! physicsBody mesh = Some body /\
    geometry mesh = SphereGeometry radius 32 16 /\
    collisionShape body = btSphereShape radius.
Proof.
  eexists; eexists; split; [reflexivity |]; split;
    [apply lookup_insert_eq | split; reflexivity].
Qed.

(** C8, amended: a capsule is built with half the generated radius, from
    key C as from [generateRandomObject] (when its draw picks the first
    case), on the mesh and on the body; a sphere, from key S as from
    [generateRandomObject], is built with the full radius.  The generated
    radius is the rounded product of the scale and 0.75, so that, the ends
    included, it lies in [0.5625, 1.3125] and its half, the capsule's
    radius, in [0.28125, 0.65625]; in exact arithmetic the half is the
    scale times 0.375.  [createCapsule] returns nothing, [createBox] and
    [createSphere] return the mesh they pushed on the registry. *)
Theorem capsule_radius_is_half (random : nat -> Q)
    (random_unit : unit_interval random) (a : App) :
  let rp := paramsOf random a in
  let keyC := E (exec (onKeypress random "KeyC") a) in
  let keyS := E (exec (onKeypress random "KeyS") a) in
  (exists mesh body,
      rigidBodies keyC = rigidBodies (E a) ++ [mesh] /\
      memory (Ammo keyC) !! physicsBody mesh = Some body /\
      geometry mesh = CapsuleGeometry (randomRadius rp / 2) (randomLength rp) /\
      collisionShape body
        = btCapsuleShape (randomRadius rp / 2) (randomLength rp)) /\
  (exists mesh body,
      rigidBodies keyS = rigidBodies (E a) ++ [mesh] /\
      memory (Ammo keyS) !! physicsBody mesh = Some body /\
      geometry mesh = SphereGeometry (randomRadius rp) 32 16 /\
      collisionShape body = btSphereShape (randomRadius rp)) /\
  (forall rp' : RandomParams,
      let u := random (randomCalls a) in
      let e' := E (exec (generateRandomObject random rp') a) in
      (u < 1 # 3 ->
       exists mesh body,
         rigidBodies e' = rigidBodies (E a) ++ [mesh] /\
         memory (Ammo e') !! physicsBody mesh = Some body /\
         geometry mesh
           = CapsuleGeometry (randomRadius rp' / 2) (randomLength rp') /\
         collisionShape body
           = btCapsuleShape (randomRadius rp' / 2) (randomLength rp')) /\
      (1 # 3 <= u -> u < 2 # 3 ->
       exists mesh body,
         rigidBodies e' = rigidBodies (E a) ++ [mesh] /\
         memory (Ammo e') !! physicsBody mesh = Some body /\
         geometry mesh = SphereGeometry (randomRadius rp') 32 16 /\
         collisionShape body = btSphereShape (randomRadius rp'))) /\
  (forall fl n,
      rounding fl ->
      let rp' := eval (Rounded.generateRandomObjectParams fl random) n in
      randomRadius rp' = fl (randomScale rp' * 0.75) /\
      (0.5625 <= randomRadius rp' /\ randomRadius rp' <= 1.3125) /\
      (0.28125 <= randomRadius rp' / 2 /\ randomRadius rp' / 2 <= 0.65625)) /\
  (rp = eval (Rounded.generateRandomObjectParams exact_arithmetic random)
          (randomCalls a) /\
   randomRadius rp == randomScale rp * 0.75 /\
   randomRadius rp / 2 == randomScale rp * 0.375 /\
   0.28125 <= randomRadius rp / 2 /\ randomRadius rp / 2 <= 0.65625) /\
  (forall radius length pos q m nm color e,
      eval (createCapsule radius length pos q m nm color) e = None) /\
  (forall scale pos q m nm color e,
      exists mesh,
        eval (createBox scale pos q m nm color) e = Some mesh /\
        last (rigidBodies (exec (createBox scale pos q m nm color) e))
        = Some mesh) /\
  (forall radius pos q m nm color e,
      exists mesh,
        eval (createSphere radius pos q m nm color) e = Some mesh /\
        last (rigidBodies (exec (createSphere radius pos q m nm color) e))
        = Some mesh).
Proof.
  intros rp keyC keyS. subst keyC keyS.
  split; [rewrite onKeypress_KeyC; apply spawnCapsule_registry |].
  split; [rewrite onKeypress_KeyS; apply spawnSphere_registry |].
  split.
  { intros rp' u e'. subst e'.
    rewrite (generateRandomObject_exec random random_unit).
    cbn [E set_E]. fold u.
    pose proof (kindOfDraw_thirds u) as (Hc & Hs & _).
    split.
    - intros Hu. rewrite (proj2 Hc Hu). apply spawnCapsule_registry.
    - intros Hu1 Hu2. rewrite (proj2 Hs (conj Hu1 Hu2)).
      apply spawnSphere_registry. }
  split.
  { intros fl n Hfl rp'.
    pose proof (Rounded_radius_range fl Hfl random random_unit n)
      as (Hr & _ & [H0 H1]).
    fold rp' in Hr, H0, H1. split; [exact Hr |]. split; [by split |].
    unfold Qdiv. change (/ 2) with (1 # 2). split; lra. }
  split.
  { split; [reflexivity |]. unfold rp, paramsOf.
    rewrite generateRandomObjectParams_eval. params_simpl.
    pose proof (random_unit (1 + randomCalls a)%nat) as [H0 H1].
    unfold Qdiv. change (/ 2) with (1 # 2). repeat split; lra. }
  split; [reflexivity |].
  split; intros; eexists; (split; [reflexivity |]);
    rewrite ?createBox_exec, ?createSphere_exec;
    unfold spawnBox, spawnSphere, spawn; cbn [rigidBodies];
    rewrite last_snoc; reflexivity.
Qed.

Lemma capsule_radius_is_half_witness :
  let rp := paramsOf cyclic_random demo_app in
  let e' := E (exec (generateRandomObject cyclic_random rp) demo_app) in
  exists mesh body,
    rigidBodies e' = rigidBodies (E demo_app) ++ [mesh] /\
    memory (Ammo e') !! physicsBody mesh = Some body /\
    geometry mesh = CapsuleGeometry (randomRadius rp / 2) (randomLength rp) /\
    collisionShape body
      = btCapsuleShape (randomRadius rp / 2) (randomLength rp).
Proof.
  refine (proj1 (proj1 (proj2 (proj2
            (capsule_radius_is_half cyclic_random cyclic_random_unit
               demo_app)))
            (paramsOf cyclic_random demo_app)) _).
  reflexivity.
Defined.

(** C8 as stated fails on binary64 numbers: at the largest draw,
    1 - 2^-53, the scale is 1.75, the radius 1.3125 and the capsule's
    radius 0.65625, the end that the stated range excludes. *)
Lemma capsule_radius_reaches_end_binary64 :
  Binary64.unit_draw Binary64.top_draw = true /\
  Binary64.capsule_radius_at_end Binary64.top_draw = true /\
  Binary64.capsule_radius_in_range Binary64.top_draw = false.
Proof. vm_compute. repeat split; reflexivity. Qed.

(** ** Every keypress draws *)

Ltac draws_tac :=
  cbn [randomCalls set_E set_floorIsShowing set_intervalRef set_timers drawn
       set_randomCalls String.eqb Ascii.eqb Bool.eqb];
  lia.

Lemma generateRandomObject_calls (random : nat -> Q) rp a :
  randomCalls (exec (generateRandomObject random rp) a) = S (randomCalls a).
Proof.
  unfold generateRandomObject. rewrite exec_bind.
  unfold onRandom. rewrite !eval_zoom, exec_zoom.
  change (exec (Util.randomInt random 3 0) (randomCalls a))
    with (S (randomCalls a)).
  repeat match goal with
         | |- context [if ?b then _ else _] => destruct b
         end;
    rewrite ?exec_bind; unfold onE; rewrite ?exec_zoom; reflexivity.
Qed.

Lemma nonFloors_makeFloor e : nonFloors (exec makeFloor e) = nonFloors e.
Proof.
  rewrite makeFloor_exec. unfold spawnBox.
  rewrite !nonFloors_spawn. cbn. by rewrite !app_nil_r.
Qed.

(** C10: every keypress, whatever its code, first draws one parameter set:
    the generator advances by the ten draws of [generateRandomObjectParams]
    (and by one more under Space, for the choice of the kind).  This
    happens also for the keys that spawn nothing: under R, F, G no
    non-floor object is added, and a key mapped to no action changes
    nothing but the generator state. *)
Theorem onKeypress_always_draws (random : nat -> Q) (code : string) (a : App) :
  let a' := exec (onKeypress random code) a in
  randomCalls a' =
    (randomCalls a + 10 + (if String.eqb code "Space" then 1 else 0))%nat /\
  (code ≠ "KeyS" -> code ≠ "KeyB" -> code ≠ "KeyC" -> code ≠ "Space" ->
   nonFloors (E a') = if String.eqb code "KeyR" then [] else nonFloors (E a)) /\
  (code ≠ "KeyS" -> code ≠ "KeyB" -> code ≠ "KeyC" -> code ≠ "Space" ->
   code ≠ "KeyR" -> code ≠ "KeyF" -> code ≠ "KeyG" ->
   a' = set_randomCalls (10 + randomCalls a) a).
Proof.
  intros a'. subst a'.
  destruct (String.eqb_spec code "KeyS") as [-> | H1];
    [rewrite onKeypress_KeyS; split; [draws_tac | split; intros; done] |].
  destruct (String.eqb_spec code "KeyB") as [-> | H2];
    [rewrite onKeypress_KeyB; split; [draws_tac | split; intros; done] |].
  destruct (String.eqb_spec code "KeyC") as [-> | H3];
    [rewrite onKeypress_KeyC; split; [draws_tac | split; intros; done] |].
  destruct (String.eqb_spec code "Space") as [-> | H4].
  { split; [| split; intros; done].
    unfold onKeypress. rewrite exec_bind. cbn [String.eqb Ascii.eqb Bool.eqb].
    rewrite generateRandomObject_calls.
    unfold onRandom. rewrite exec_zoom. cbn [randomCalls set_randomCalls].
    unfold exec. rewrite generateRandomObjectParams_calls. lia. }
  destruct (String.eqb_spec code "KeyR") as [-> | H5].
  { rewrite onKeypress_KeyR. split; [draws_tac |]. split; [| done].
    intros _ _ _ _. cbn [E set_E]. unfold nonFloors.
    rewrite removeLoop_nonFloor_registry. apply nonFloors_of_floors. }
  destruct (String.eqb_spec code "KeyF") as [-> | H6].
  { rewrite onKeypress_KeyF. split; [| split; [| done]].
    - destruct (floorIsShowing a); draws_tac.
    - intros _ _ _ _.
      destruct (floorIsShowing a); cbn [E set_E set_floorIsShowing].
      + unfold nonFloors at 1. rewrite removeLoop_floor_registry.
        apply nonFloors_nonFloors.
      + apply nonFloors_makeFloor. }
  destruct (String.eqb_spec code "KeyG") as [-> | H7].
  { rewrite onKeypress_KeyG. split; [| split; [| done]].
    - destruct (intervalRef a); draws_tac.
    - intros _ _ _ _. by destruct (intervalRef a). }
  rewrite onKeypress_other by done.
  split; [draws_tac |]. split; done.
Qed.

Lemma onKeypress_always_draws_witness :
  exec (onKeypress cyclic_random "KeyX") demo_app =
  set_randomCalls (10 + randomCalls demo_app) demo_app.
Proof.
  refine (proj2 (proj2 (onKeypress_always_draws cyclic_random "KeyX"
                          demo_app)) _ _ _ _ _ _ _);
    discriminate.
Defined.

(** ** Events as lifecycle steps *)

Lemma generateRandomObject_cases (random : nat -> Q) rp a :
  exists e',
    exec (generateRandomObject random rp) a =
      set_E e' (set_randomCalls (S (randomCalls a)) a) /\
    (e' = E a \/ exists k, e' = spawnKind k rp (E a)).
Proof.
  unfold generateRandomObject. rewrite exec_bind.
  unfold onRandom. rewrite !eval_zoom, exec_zoom.
  change (exec (Util.randomInt random 3 0) (randomCalls a))
    with (S (randomCalls a)).
  destruct (Qeq_bool _ 0);
    [| destruct (Qeq_bool _ 1); [| destruct (Qeq_bool _ 2)]].
  - eexists. split; [| right; by exists capsule].
    rewrite exec_bind. unfold onE. rewrite exec_zoom. reflexivity.
  - eexists. split; [| right; by exists sphere].
    rewrite exec_bind. unfold onE. rewrite exec_zoom. reflexivity.
  - eexists. split; [| right; by exists box].
    rewrite exec_bind. unfold onE. rewrite exec_zoom. reflexivity.
  - exists (E a). split; [| by left]. by destruct a.
Qed.

Section Lifecycle.

Variable random : nat -> Q.
Variable stepSimulation :
  Q -> nat -> btDiscreteDynamicsWorld ->
  gmap nat btRigidBody -> gmap nat btRigidBody.

Lemma onKeypress_lifecycle code a :
  let a' := exec (onKeypress random code) a in
  lifecycle stepSimulation a (E a') (floorIsShowing a').
Proof.
  cbn zeta.
  destruct (String.eqb_spec code "KeyS") as [-> | H1];
    [rewrite onKeypress_KeyS; exact (lc_spawn stepSimulation a sphere (paramsOf random a)) |].
  destruct (String.eqb_spec code "KeyB") as [-> | H2];
    [rewrite onKeypress_KeyB; exact (lc_spawn stepSimulation a box (paramsOf random a)) |].
  destruct (String.eqb_spec code "KeyC") as [-> | H3];
    [rewrite onKeypress_KeyC; exact (lc_spawn stepSimulation a capsule (paramsOf random a)) |].
  destruct (String.eqb_spec code "Space") as [-> | H4].
  { unfold onKeypress. rewrite exec_bind. cbn [String.eqb Ascii.eqb Bool.eqb].
    destruct (generateRandomObject_cases random
                (eval (onRandom (generateRandomObjectParams random)) a)
                (exec (onRandom (generateRandomObjectParams random)) a))
      as (e' & -> & [-> | [k ->]]).
    - apply (lc_idle stepSimulation a).
    - apply (lc_spawn stepSimulation a k). }
  destruct (String.eqb_spec code "KeyR") as [-> | H5];
    [rewrite onKeypress_KeyR; apply (lc_clear stepSimulation a) |].
  destruct (String.eqb_spec code "KeyF") as [-> | H6].
  { rewrite onKeypress_KeyF. destruct (floorIsShowing a) eqn:Hf.
    - by apply (lc_floor_off stepSimulation a).
    - by apply (lc_floor_on stepSimulation a). }
  destruct (String.eqb_spec code "KeyG") as [-> | H7].
  { rewrite onKeypress_KeyG.
    destruct (intervalRef a); apply (lc_idle stepSimulation a). }
  rewrite onKeypress_other by done. apply (lc_idle stepSimulation a).
Qed.

Lemma intervalCallback_lifecycle a :
  let a' := exec (intervalCallback random) a in
  lifecycle stepSimulation a (E a') (floorIsShowing a').
Proof.
  cbn zeta. unfold intervalCallback. rewrite exec_bind.
  destruct (generateRandomObject_cases random
              (eval (onRandom (generateRandomObjectParams random)) a)
              (exec (onRandom (generateRandomObjectParams random)) a))
    as (e' & -> & [-> | [k ->]]).
  - apply (lc_idle stepSimulation a).
  - apply (lc_spawn stepSimulation a k).
Qed.

Lemma handle_lifecycle ev a :
  let a' := exec (handle random stepSimulation ev) a in
  lifecycle stepSimulation a (E a') (floorIsShowing a').
Proof.
  destruct ev as [code | deltaTime |]; cbn zeta; cbn [handle].
  - apply onKeypress_lifecycle.
  - unfold onE. rewrite exec_zoom. apply (lc_frame stepSimulation a).
  - rewrite exec_bind. change (eval get a) with a. change (exec get a) with a.
    destruct (intervalRef a).
    + apply intervalCallback_lifecycle.
    + apply (lc_idle stepSimulation a).
Qed.

End Lifecycle.

(** ** The floor invariant *)

Lemma filter_fmap_stable {A} (P : A -> Prop) `{!forall x, Decision (P x)}
    (f : A -> A) (l : list A) :
  (forall x, P (f x) <-> P x) -> filter P (f <$> l) = f <$> filter P l.
Proof.
  intros HP. induction l as [| x l IH]; [done |].
  rewrite fmap_cons, !filter_cons, IH.
  destruct (decide (P x)) as [Hx | Hx].
  - by rewrite decide_True by (by apply HP).
  - by rewrite decide_False by (by rewrite HP).
Qed.

Lemma is_floor_synced mem m : is_floor (synced mem m) = is_floor m.
Proof. unfold synced. by destruct (getMotionState mem (physicsBody m)). Qed.

Lemma visual_synced mem m : visual (synced mem m) = visual m.
Proof. unfold synced. by destruct (getMotionState mem (physicsBody m)). Qed.

Lemma physicsBody_synced mem m : physicsBody (synced mem m) = physicsBody m.
Proof. unfold synced. by destruct (getMotionState mem (physicsBody m)). Qed.

Lemma floors_removeLoop_nonFloor e :
  floors (exec (removeLoop (fun m => negb (is_floor m))) e) = floors e.
Proof.
  unfold floors at 1. rewrite removeLoop_nonFloor_registry.
  apply floors_floors.
Qed.

Lemma floors_removeLoop_floor e :
  floors (exec (removeLoop is_floor) e) = [].
Proof.
  unfold floors. rewrite removeLoop_floor_registry. apply floors_of_nonFloors.
Qed.

Lemma visual_floors_spawn g shape pos q ms nm color e :
  visual <$> floors (spawn g shape pos q ms nm color e) =
  (visual <$> floors e)
    ++ (if String.eqb nm "floor" then [(nm, g, color)] else []).
Proof.
  rewrite floors_spawn, fmap_app. by destruct (String.eqb nm "floor").
Qed.

Lemma fresh_ptrs_spawn g shape pos q ms nm color e :
  fresh_ptrs e -> fresh_ptrs (spawn g shape pos q ms nm color e).
Proof.
  intros Hf m. cbn [rigidBodies spawn Ammo brk].
  rewrite elem_of_app, list_elem_of_singleton. intros [Hm | ->].
  - specialize (Hf m Hm). lia.
  - cbn. lia.
Qed.

Lemma fresh_ptrs_spawnKind k rp e :
  fresh_ptrs e -> fresh_ptrs (spawnKind k rp e).
Proof. destruct k; apply fresh_ptrs_spawn. Qed.

Lemma fresh_ptrs_removeLoop test e :
  fresh_ptrs e -> fresh_ptrs (exec (removeLoop test) e).
Proof.
  intros Hf m.
  pose proof (removeLoop_spec test e) as (Hr & _ & _ & HA & _).
  rewrite Hr, HA. intros Hm. apply list_elem_of_filter in Hm as [_ Hm].
  by apply Hf.
Qed.

Lemma bodies_floors_spawn g shape pos q ms nm color e :
  fresh_ptrs e ->
  bodyOf (memory (Ammo (spawn g shape pos q ms nm color e)))
    <$> floors (spawn g shape pos q ms nm color e) =
  (bodyOf (memory (Ammo e)) <$> floors e)
    ++ (if String.eqb nm "floor"
        then [Some (newBody shape pos q ms)] else []).
Proof.
  intros Hf. rewrite floors_spawn, fmap_app. f_equal.
  - apply list_fmap_ext. intros i m Hi.
    assert (Hm : m ∈ rigidBodies e).
    { apply list_elem_of_lookup_2 in Hi.
      by apply list_elem_of_filter in Hi as [_ Hi]. }
    specialize (Hf m Hm). unfold bodyOf. cbn [memory Ammo spawn].
    apply lookup_insert_ne. lia.
  - destruct (String.eqb nm "floor"); [| done].
    cbn. unfold bodyOf. cbn. by rewrite lookup_insert_eq.
Qed.

Lemma bodies_floors_spawnKind k rp e :
  fresh_ptrs e ->
  bodyOf (memory (Ammo (spawnKind k rp e))) <$> floors (spawnKind k rp e) =
  bodyOf (memory (Ammo e)) <$> floors e.
Proof.
  intros Hf.
  destruct k; unfold spawnKind, spawnCapsule, spawnSphere, spawnBox;
    rewrite bodies_floors_spawn by done; cbn; by rewrite app_nil_r.
Qed.

(** [makeFloor] on a registry without floor-named meshes yields the five
    panels, on both sides. *)
Lemma makeFloor_panels e :
  fresh_ptrs e -> floors e = [] ->
  fresh_ptrs (exec makeFloor e) /\
  visual <$> floors (exec makeFloor e) = fst <$> floorPanels /\
  bodyOf (memory (Ammo (exec makeFloor e))) <$> floors (exec makeFloor e)
    = snd <$> floorPanels.
Proof.
  intros Hf He. rewrite makeFloor_exec. unfold spawnBox.
  set (e1 := spawn _ _ _ _ _ _ _ e).
  set (e2 := spawn _ _ _ _ _ _ _ e1).
  set (e3 := spawn _ _ _ _ _ _ _ e2).
  set (e4 := spawn _ _ _ _ _ _ _ e3).
  assert (F1 : fresh_ptrs e1) by by apply fresh_ptrs_spawn.
  assert (F2 : fresh_ptrs e2) by by apply fresh_ptrs_spawn.
  assert (F3 : fresh_ptrs e3) by by apply fresh_ptrs_spawn.
  assert (F4 : fresh_ptrs e4) by by apply fresh_ptrs_spawn.
  split; [by apply fresh_ptrs_spawn |]. split.
  - rewrite visual_floors_spawn. subst e4.
    rewrite visual_floors_spawn. subst e3.
    rewrite visual_floors_spawn. subst e2.
    rewrite visual_floors_spawn. subst e1.
    rewrite visual_floors_spawn, He. reflexivity.
  - rewrite bodies_floors_spawn by done. subst e4.
    rewrite bodies_floors_spawn by done. subst e3.
    rewrite bodies_floors_spawn by done. subst e2.
    rewrite bodies_floors_spawn by done. subst e1.
    rewrite bodies_floors_spawn by done. rewrite He. reflexivity.
Qed.

Lemma Forall_of_fmap {A B} (f : A -> B) (P : B -> Prop) (l : list A) :
  Forall P (f <$> l) -> Forall (fun x => P (f x)) l.
Proof.
  induction l as [| x l IH]; [constructor |].
  rewrite fmap_cons. intros H. inversion H; subst. constructor; auto.
Qed.

Lemma floorPanels_static :
  Forall (fun ob : option btRigidBody =>
            exists b, ob = Some b /\ mass b == 0)
    (snd <$> floorPanels).
Proof. repeat constructor; eexists; (split; [reflexivity | reflexivity]). Qed.

Lemma demo_step_static : static_step demo_step.
Proof.
  intros deltaTime k w mem p b Hp Hm. unfold demo_step.
  rewrite lookup_fmap, Hp. cbn. unfold demo_fall.
  by rewrite (proj2 (Qeq_bool_iff _ _) Hm).
Qed.

Section FloorInvariant.

Variable random : nat -> Q.
Variable stepSimulation :
  Q -> nat -> btDiscreteDynamicsWorld ->
  gmap nat btRigidBody -> gmap nat btRigidBody.

Lemma floors_render deltaTime e :
  floors (exec (render stepSimulation deltaTime) e) =
  synced (stepSimulation deltaTime 10 (physicsUniverse e) (memory (Ammo e)))
    <$> floors e.
Proof.
  pose proof (render_spec stepSimulation deltaTime e) as (H & _).
  unfold floors. rewrite H. apply filter_fmap_stable.
  intros m. by rewrite is_floor_synced.
Qed.

Lemma fresh_ptrs_render deltaTime e :
  fresh_ptrs e -> fresh_ptrs (exec (render stepSimulation deltaTime) e).
Proof.
  intros Hf m.
  pose proof (render_spec stepSimulation deltaTime e) as (Hr & HA & _).
  rewrite Hr, HA. cbn [brk]. intros Hm.
  apply list_elem_of_fmap in Hm as (m0 & -> & Hm0).
  rewrite physicsBody_synced. by apply Hf.
Qed.

(** The graphics side of the invariant needs nothing of the physics. *)
Lemma floor_visuals_step a e' fl :
  lifecycle stepSimulation a e' fl ->
  floor_visuals_ok (E a) (floorIsShowing a) ->
  floor_visuals_ok e' fl.
Proof.
  intros Hstep Hinv. destruct Hstep as [| k rp | | Hfl | Hfl | deltaTime].
  - exact Hinv.
  - unfold floor_visuals_ok in *. by rewrite floors_spawnKind.
  - unfold floor_visuals_ok in *. by rewrite floors_removeLoop_nonFloor.
  - apply floors_removeLoop_floor.
  - unfold floor_visuals_ok in *. rewrite Hfl in Hinv.
    rewrite makeFloor_exec. unfold spawnBox.
    rewrite !visual_floors_spawn, Hinv. reflexivity.
  - unfold floor_visuals_ok in *. rewrite floors_render.
    destruct (floorIsShowing a).
    + rewrite <- Hinv, <- list_fmap_compose. apply list_fmap_ext.
      intros i m _. apply visual_synced.
    + by rewrite Hinv.
Qed.

Hypothesis stepSimulation_static : static_step stepSimulation.

Lemma floor_bodies_step a e' fl :
  lifecycle stepSimulation a e' fl ->
  floor_visuals_ok (E a) (floorIsShowing a) ->
  floor_bodies_ok (E a) (floorIsShowing a) ->
  floor_bodies_ok e' fl.
Proof.
  intros Hstep Hvis [Hfresh Hbodies].
  destruct Hstep as [| k rp | | Hfl | Hfl | deltaTime].
  - by split.
  - split; [by apply fresh_ptrs_spawnKind |].
    intros Hfl. rewrite bodies_floors_spawnKind by done. by apply Hbodies.
  - split; [by apply fresh_ptrs_removeLoop |].
    intros Hfl. rewrite floors_removeLoop_nonFloor.
    pose proof (removeLoop_spec (fun m => negb (is_floor m)) (E a))
      as (_ & _ & _ & HA & _).
    rewrite HA. by apply Hbodies.
  - split; [by apply fresh_ptrs_removeLoop | done].
  - unfold floor_visuals_ok in Hvis. rewrite Hfl in Hvis.
    destruct (makeFloor_panels (E a) Hfresh Hvis) as (H1 & _ & H3).
    by split.
  - split; [by apply fresh_ptrs_render |].
    intros Hfl. specialize (Hbodies Hfl).
    rewrite floors_render.
    pose proof (render_spec stepSimulation deltaTime (E a)) as (_ & HA & _).
    rewrite HA. cbn [memory].
    rewrite <- Hbodies, <- list_fmap_compose.
    apply Forall_fmap_ext_1.
    pose proof floorPanels_static as Hst. rewrite <- Hbodies in Hst.
    apply Forall_of_fmap in Hst.
    eapply Forall_impl; [exact Hst |].
    intros m (b & Hb & Hmass). cbn in Hb |- *.
    unfold bodyOf in *. rewrite physicsBody_synced, Hb.
    by apply stepSimulation_static.
Qed.

Lemma floor_inv_handle ev a :
  floor_inv a -> floor_inv (exec (handle random stepSimulation ev) a).
Proof.
  intros [Hv Hb].
  pose proof (handle_lifecycle random stepSimulation ev a) as Hstep.
  cbn zeta in Hstep. split.
  - by eapply floor_visuals_step.
  - by eapply floor_bodies_step.
Qed.

Lemma floor_inv_run evs :
  forall a, floor_inv a -> floor_inv (run random stepSimulation evs a).
Proof.
  induction evs as [| ev evs IH]; intros a Ha; [exact Ha |].
  cbn [run fold_left]. apply IH. by apply floor_inv_handle.
Qed.

End FloorInvariant.

Lemma floor_visuals_run random stepSimulation evs :
  forall a,
    floor_visuals_ok (E a) (floorIsShowing a) ->
    let a' := run random stepSimulation evs a in
    floor_visuals_ok (E a') (floorIsShowing a').
Proof.
  induction evs as [| ev evs IH]; intros a Ha; [exact Ha |].
  cbn zeta. cbn [run fold_left]. apply IH.
  eapply floor_visuals_step; [| exact Ha].
  apply (handle_lifecycle random stepSimulation ev a).
Qed.

(** The state the script leaves: the registry holds the five panels. *)
Lemma main_registry stepSimulation deltaTime :
  exists e0,
    E (main stepSimulation deltaTime) = exec makeFloor e0 /\
    rigidBodies e0 = [] /\
    floorIsShowing (main stepSimulation deltaTime) = true.
Proof.
  unfold main. cbn [E floorIsShowing]. rewrite !exec_bind.
  eexists. split; [reflexivity |]. split; reflexivity.
Qed.

Lemma floor_inv_main stepSimulation deltaTime :
  floor_inv (main stepSimulation deltaTime).
Proof.
  destruct (main_registry stepSimulation deltaTime) as (e0 & HE & Hreg & Hfl).
  assert (Hfresh : fresh_ptrs e0).
  { intros m. rewrite Hreg. intros Hm. inversion Hm. }
  assert (He : floors e0 = []) by (unfold floors; by rewrite Hreg).
  destruct (makeFloor_panels e0 Hfresh He) as (H1 & H2 & H3).
  unfold floor_inv, floor_visuals_ok, floor_bodies_ok.
  rewrite Hfl, HE. repeat split; done.
Qed.

Lemma panel_split mem (l : list Mesh)
    (ps : list ((string * Geometry * Q) * option btRigidBody)) :
  visual <$> l = fst <$> ps ->
  bodyOf mem <$> l = snd <$> ps ->
  panel mem <$> l = ps.
Proof.
  revert ps. induction l as [| m l IH]; intros [| [v b] ps] Hv Hb;
    try discriminate; [done |].
  cbn in Hv, Hb |- *. injection Hv as Hv1 Hv2. injection Hb as Hb1 Hb2.
  unfold panel at 1. rewrite Hv1, Hb1. f_equal. by apply IH.
Qed.

Lemma floor_inv_panels a :
  floor_inv a -> floorIsShowing a = true ->
  panel (memory (Ammo (E a))) <$> floors (E a) = floorPanels.
Proof.
  intros [Hv [_ Hb]] Hfl. unfold floor_visuals_ok in Hv. rewrite Hfl in Hv.
  apply panel_split; [exact Hv | by apply Hb].
Qed.

(** C5: in every state the page can reach with the floor showing, pressing
    F twice leaves the flag set and the floor of the registry made of the
    same panels as before, in the same order: same names, dimensions and
    colors, and behind them bodies of the same (zero) mass, position,
    orientation, shape, margin and restitution.  The physics engine is
    taken to leave bodies of mass 0 where they are. *)
Theorem floor_toggle_twice (random : nat -> Q)
    (stepSimulation :
       Q -> nat -> btDiscreteDynamicsWorld ->
       gmap nat btRigidBody -> gmap nat btRigidBody)
    (stepSimulation_static : static_step stepSimulation)
    (deltaTime : Q) (evs : list Event) :
  let a := run random stepSimulation evs (main stepSimulation deltaTime) in
  floorIsShowing a = true ->
  let a2 :=
    exec (onKeypress random "KeyF") (exec (onKeypress random "KeyF") a) in
  floorIsShowing a2 = true /\
  length (floors (E a2)) = length (floors (E a)) /\
  panel (memory (Ammo (E a2))) <$> floors (E a2) =
    panel (memory (Ammo (E a))) <$> floors (E a) /\
  panel (memory (Ammo (E a2))) <$> floors (E a2) = floorPanels.
Proof.
  intros a Hfl a2.
  assert (Ha : floor_inv a).
  { apply floor_inv_run; [done |]. apply floor_inv_main. }
  set (a1 := exec (onKeypress random "KeyF") a) in *.
  assert (Ha1 : floor_inv a1).
  { apply (floor_inv_handle random stepSimulation stepSimulation_static
             (Keypress "KeyF") a Ha). }
  assert (Ha2 : floor_inv a2).
  { apply (floor_inv_handle random stepSimulation stepSimulation_static
             (Keypress "KeyF") a1 Ha1). }
  assert (Hfl1 : floorIsShowing a1 = false).
  { subst a1. rewrite onKeypress_KeyF, Hfl. reflexivity. }
  assert (Hfl2 : floorIsShowing a2 = true).
  { subst a2. rewrite onKeypress_KeyF, Hfl1. reflexivity. }
  pose proof (floor_inv_panels a Ha Hfl) as Hp.
  pose proof (floor_inv_panels a2 Ha2 Hfl2) as Hp2.
  split; [exact Hfl2 |]. split; [| split; [by rewrite Hp, Hp2 | exact Hp2]].
  apply (f_equal length) in Hp, Hp2. rewrite length_fmap in Hp, Hp2.
  by rewrite Hp, Hp2.
Qed.

Lemma floor_toggle_twice_witness :
  let a2 :=
    exec (onKeypress cyclic_random "KeyF")
      (exec (onKeypress cyclic_random "KeyF") demo_app) in
  floorIsShowing a2 = true /\
  length (floors (E a2)) = length (floors (E demo_app)) /\
  panel (memory (Ammo (E a2))) <$> floors (E a2) =
    panel (memory (Ammo (E demo_app))) <$> floors (E demo_app) /\
  panel (memory (Ammo (E a2))) <$> floors (E a2) = floorPanels.
Proof.
  exact (floor_toggle_twice cyclic_random demo_step demo_step_static 0
           [Keypress "KeyB"; AnimationFrame 1] eq_refl).
Defined.

(** C9: after the script has run and under every sequence of events (key
    presses, frames, timer ticks), [floorIsShowing] is true exactly when
    the floor-named meshes of the registry are the five panels of
    [makeFloor], and false exactly when the registry has no floor-named
    mesh.  Behind it: a spawn (keys S, B, C, Space, the timer) adds no
    floor-named mesh, key R keeps the floor-named meshes, and key F flips
    the flag while it removes all of them or creates the five anew. *)
Theorem floorIsShowing_matches_registry (random : nat -> Q)
    (stepSimulation :
       Q -> nat -> btDiscreteDynamicsWorld ->
       gmap nat btRigidBody -> gmap nat btRigidBody)
    (deltaTime : Q) (evs : list Event) :
  let a := run random stepSimulation evs (main stepSimulation deltaTime) in
  (floorIsShowing a = true <->
   visual <$> floors (E a) = fst <$> floorPanels) /\
  (floorIsShowing a = false <-> floors (E a) = []) /\
  length (floors (E a)) = (if floorIsShowing a then 5 else 0)%nat /\
  (forall k rp, floors (spawnKind k rp (E a)) = floors (E a)) /\
  (forall code,
      code = "KeyS" \/ code = "KeyB" \/ code = "KeyC" \/ code = "Space" ->
      let a' := exec (onKeypress random code) a in
      floors (E a') = floors (E a) /\ floorIsShowing a' = floorIsShowing a) /\
  (let a' := exec (intervalCallback random) a in
   floors (E a') = floors (E a) /\ floorIsShowing a' = floorIsShowing a) /\
  (let a' := exec (onKeypress random "KeyR") a in
   floors (E a') = floors (E a) /\ floorIsShowing a' = floorIsShowing a) /\
  (let a' := exec (onKeypress random "KeyF") a in
   floorIsShowing a' = negb (floorIsShowing a) /\
   if floorIsShowing a
   then floors (E a') = []
   else visual <$> floors (E a') = fst <$> floorPanels).
Proof.
  intros a.
  assert (Hinv : floor_visuals_ok (E a) (floorIsShowing a)).
  { apply floor_visuals_run. apply floor_inv_main. }
  assert (Hspace : forall a0 : App,
    let a' := exec (generateRandomObject random (paramsOf random a)) a0 in
    floors (E a') = floors (E a0) /\ floorIsShowing a' = floorIsShowing a0).
  { intros a0.
    destruct (generateRandomObject_cases random (paramsOf random a) a0)
      as (e' & Heq & [-> | [k ->]]); cbn zeta; rewrite Heq;
      cbn [E set_E floorIsShowing set_randomCalls];
      rewrite ?floors_spawnKind; done. }
  unfold floor_visuals_ok in Hinv.
  split; [| split; [| split; [| split; [| split; [| split; [| split]]]]]].
  - destruct (floorIsShowing a); [done |].
    rewrite Hinv. split; discriminate.
  - destruct (floorIsShowing a); [| done].
    split; [discriminate |]. intros He. rewrite He in Hinv. discriminate.
  - destruct (floorIsShowing a).
    + apply (f_equal length) in Hinv. by rewrite !length_fmap in Hinv.
    + by rewrite Hinv.
  - intros k rp. apply floors_spawnKind.
  - intros code [-> | [-> | [-> | ->]]]; cbn zeta.
    + rewrite onKeypress_KeyS. split; [| done].
      apply (floors_spawnKind sphere).
    + rewrite onKeypress_KeyB. split; [| done].
      apply (floors_spawnKind box).
    + rewrite onKeypress_KeyC. split; [| done].
      apply (floors_spawnKind capsule).
    + unfold onKeypress. rewrite exec_bind.
      cbn [String.eqb Ascii.eqb Bool.eqb].
      apply (Hspace (drawn a)).
  - cbn zeta. unfold intervalCallback. rewrite exec_bind.
    apply (Hspace (drawn a)).
  - cbn zeta. rewrite onKeypress_KeyR. split; [| done].
    apply floors_removeLoop_nonFloor.
  - cbn zeta. rewrite onKeypress_KeyF.
    destruct (floorIsShowing a); (split; [done |]);
      cbn [E set_E set_floorIsShowing].
    + apply floors_removeLoop_floor.
    + rewrite makeFloor_exec. unfold spawnBox.
      rewrite !visual_floors_spawn. cbn [E drawn set_randomCalls].
      rewrite Hinv. reflexivity.
Qed.

Lemma floorIsShowing_matches_registry_witness :
  let a' := exec (onKeypress cyclic_random "KeyB") demo_app in
  floors (E a') = floors (E demo_app) /\
  floorIsShowing a' = floorIsShowing demo_app.
Proof.
  exact (proj1 (proj2 (proj2 (proj2 (proj2
           (floorIsShowing_matches_registry cyclic_random demo_step 0
              [Keypress "KeyB"; AnimationFrame 1])))))
           "KeyB" (or_intror (or_introl eq_refl))).
Defined.

(** ** The model at work on the sample page *)

Example demo_registry :
  name <$> rigidBodies (E demo_app)
  = ["floor"; "floor"; "floor"; "floor"; "floor"; "box"].
Proof. vm_compute. reflexivity. Qed.

Example demo_box_fell :
  position <$> last (rigidBodies (E demo_app))
  = Some (SetXYZ (-3.5) 29.0 (-2.5)).
Proof. vm_compute. reflexivity. Qed.

Example demo_keyR :
  name <$> rigidBodies (E (exec (onKeypress cyclic_random "KeyR") demo_app))
  = ["floor"; "floor"; "floor"; "floor"; "floor"].
Proof. vm_compute. reflexivity. Qed.

Example demo_keyF :
  let a := exec (onKeypress cyclic_random "KeyF") demo_app in
  (name <$> rigidBodies (E a), floorIsShowing a) = (["box"], false).
Proof. vm_compute. reflexivity. Qed.

Example demo_keyF_keyF :
  let a :=
    exec (onKeypress cyclic_random "KeyF")
      (exec (onKeypress cyclic_random "KeyF") demo_app) in
  (name <$> rigidBodies (E a), floorIsShowing a)
  = (["box"; "floor"; "floor"; "floor"; "floor"; "floor"], true).
Proof. vm_compute. reflexivity. Qed.

Example demo_frame_trace :
  trace (exec (render demo_step 1) demo_engine)
  = [clock_getDelta 1; physics_stepSimulation 1 10;
     mesh_setTransform 1 (mkVec3 0 (20 - 1) 0) (mkQuat 0 0 0 1);
     renderer_render [0%nat; 1%nat]; callback_call readoutCallback [];
     requestAnimationFrame].
Proof. reflexivity. Qed.

Example demo_randomInt :
  eval (Util.randomInt cyclic_random 3 0) 5%nat == 1.
Proof. vm_compute. reflexivity. Qed.

(** * Further properties of the code *)

(** ** app/lib/util.js on every argument *)

(** X1: in rounded arithmetic, for a positive first argument,
    [randomFloat(max, min)] lies between [min] and the rounded sum of [min]
    and [max], both ends included: the first argument is the width of the
    range, not its upper end, and the upper end is not excluded, since the
    product [Math.random() * max] can round up to [max].  One draw is
    consumed. *)
Theorem randomFloat_range (fl : Q -> Q) (fl_rounding : rounding fl)
    (random : nat -> Q) (random_unit : unit_interval random)
    (max min : Q) (n : nat) :
  0 < max -> representable fl max -> representable fl min ->
  let r := eval (Rounded.randomFloat fl random max min) n in
  min <= r /\ r <= fl (min + max) /\
  (representable fl (min + max) -> r <= min + max) /\
  exec (Rounded.randomFloat fl random max min) n = S n.
Proof.
  intros Hmax Rmax Rmin r. subst r.
  change (eval (Rounded.randomFloat fl random max min) n)
    with (fl (min + fl (random n * max))).
  pose proof (random_unit n) as [H0 H1].
  pose proof (Qmult_le_0_compat _ _ H0 (Qlt_le_weak _ _ Hmax)) as Hlo.
  pose proof (proj2 (Qmult_lt_r (random n) 1 _ Hmax) H1) as Hhi.
  set (u := random n) in *. clearbody u.
  destruct (rounding_between fl fl_rounding 0 max (u * max)
              (dyadic_representable fl fl_rounding _ dyadic_0) Rmax)
    as [Hm0 Hm1]; [lra | lra |].
  set (m := fl (u * max)) in *. clearbody m.
  assert (L : fl min <= fl (min + m))
    by (apply (rounding_mono fl fl_rounding); lra).
  assert (U : fl (min + m) <= fl (min + max))
    by (apply (rounding_mono fl fl_rounding); lra).
  unfold representable in Rmin. rewrite Rmin in L.
  split; [exact L |]. split; [exact U |]. split; [| reflexivity].
  unfold representable. intros R. by rewrite R in U.
Qed.

Lemma randomFloat_range_witness :
  let r := eval (Rounded.randomFloat exact_arithmetic cyclic_random 25 20)
             4%nat in
  20 <= r /\ r <= exact_arithmetic (20 + 25) /\
  (representable exact_arithmetic (20 + 25) -> r <= 20 + 25) /\
  exec (Rounded.randomFloat exact_arithmetic cyclic_random 25 20) 4%nat
  = 5%nat.
Proof.
  apply (randomFloat_range exact_arithmetic exact_arithmetic_rounding
           cyclic_random cyclic_random_unit 25 20 4);
    reflexivity.
Defined.

(** On binary64 numbers the upper end is reached: at the largest draw,
    1 - 2^-53, [randomFloat(1, 0.75)] is 1.75. *)
Example randomFloat_reaches_end_binary64 :
  Binary64.unit_draw Binary64.top_draw = true /\
  Binary64.scale_at_end Binary64.top_draw = true /\
  Binary64.scale_in_range Binary64.top_draw = false.
Proof. vm_compute. repeat split; reflexivity. Qed.

(** X2: for a positive integer [max], [randomInt(max, min)] is [min] plus
    an integer of [0, max): it ranges over [min, min + max), so past [max]
    when [min] is positive. *)
Theorem randomInt_range (random : nat -> Q)
    (random_unit : unit_interval random) (max : Z) (min : Q) (n : nat) :
  (0 < max)%Z ->
  exists j : Z,
    (0 <= j < max)%Z /\
    eval (Util.randomInt random (inject_Z max) min) n = min + inject_Z j.
Proof.
  intros Hmax. exists (Qfloor (random n * inject_Z max)).
  split; [| reflexivity].
  pose proof (random_unit n) as [H0 H1].
  assert (Hm : 0 < inject_Z max).
  { change 0 with (inject_Z 0). by rewrite <- Zlt_Qlt. }
  pose proof (Qmult_le_0_compat _ _ H0 (Qlt_le_weak _ _ Hm)) as Hlo.
  pose proof (proj2 (Qmult_lt_r (random n) 1 _ Hm) H1) as Hhi.
  rewrite Qmult_1_l in Hhi.
  pose proof (Qfloor_le (random n * inject_Z max)) as Hfl.
  split.
  - change 0%Z with (Qfloor 0). by apply Qfloor_resp_le.
  - rewrite Zlt_Qlt. eapply Qle_lt_trans; [exact Hfl | exact Hhi].
Qed.

Lemma randomInt_range_witness :
  exists j : Z,
    (0 <= j < 3)%Z /\
    eval (Util.randomInt cyclic_random (inject_Z 3) 2) 5%nat = 2 + inject_Z j.
Proof.
  apply (randomInt_range cyclic_random cyclic_random_unit 3 2 5). reflexivity.
Defined.

(** X3: [random8BitColor()] lies in [0, 0xffffff): the top value, white, is
    never produced. *)
Theorem random8BitColor_range (random : nat -> Q)
    (random_unit : unit_interval random) (n : nat) :
  let c := eval (Util.random8BitColor random) n in
  0 <= c /\ c < 16777215.
Proof.
  intros c. subst c.
  change (eval (Util.random8BitColor random) n) with (random n * 16777215).
  pose proof (random_unit n) as [H0 H1]. split; lra.
Qed.

Lemma random8BitColor_range_witness :
  let c := eval (Util.random8BitColor cyclic_random) 7%nat in
  0 <= c /\ c < 16777215.
Proof. exact (random8BitColor_range cyclic_random cyclic_random_unit 7). Defined.

(** ** Scene, world and registry stay in step *)

Lemma fmap_inj_in {A B} (f : A -> B) (l : list A) (x y : A) :
  NoDup (f <$> l) -> x ∈ l -> y ∈ l -> f x = f y -> x = y.
Proof.
  induction l as [| z l IH]; intros Hnd Hx Hy Hf; [by inversion Hx |].
  rewrite fmap_cons in Hnd. apply NoDup_cons in Hnd as [Hz Hnd].
  apply elem_of_cons in Hx as [-> | Hx]; apply elem_of_cons in Hy as [-> | Hy].
  - done.
  - exfalso. apply Hz. rewrite Hf. by apply list_elem_of_fmap_2.
  - exfalso. apply Hz. rewrite <- Hf. by apply list_elem_of_fmap_2.
  - by apply IH.
Qed.

Lemma filter_fmap_pre {A B} (f : A -> B) (P : B -> Prop)
    `{!forall y, Decision (P y)} (l : list A) :
  filter P (f <$> l) = f <$> filter (fun x => P (f x)) l.
Proof.
  induction l as [| x l IH]; [done |].
  rewrite fmap_cons, !filter_cons, IH. by destruct (decide (P (f x))).
Qed.

Lemma filter_iff_in {A} (P Q : A -> Prop) `{!forall x, Decision (P x)}
    `{!forall x, Decision (Q x)} (l : list A) :
  (forall x, x ∈ l -> (P x <-> Q x)) -> filter P l = filter Q l.
Proof.
  induction l as [| x l IH]; intros HPQ; [done |].
  rewrite !filter_cons.
  assert (Hx : P x <-> Q x) by (apply HPQ; left).
  rewrite IH by (intros y Hy; apply HPQ; by right).
  destruct (decide (P x)), (decide (Q x)); tauto.
Qed.

Lemma filter_keep_in {A} (P : A -> Prop) `{!forall x, Decision (P x)}
    (l : list A) :
  (forall x, x ∈ l -> P x) -> filter P l = l.
Proof.
  induction l as [| x l IH]; intros HP; [done |].
  rewrite filter_cons_True by (apply HP; left).
  by rewrite IH by (intros y Hy; apply HP; by right).
Qed.

Lemma NoDup_fmap_filter {A B} (f : A -> B) (P : A -> Prop)
    `{!forall x, Decision (P x)} (l : list A) :
  NoDup (f <$> l) -> NoDup (f <$> filter P l).
Proof.
  induction l as [| x l IH]; [done |].
  rewrite fmap_cons, filter_cons. intros [Hx Hnd]%NoDup_cons.
  destruct (decide (P x)); [| by apply IH].
  rewrite fmap_cons. apply NoDup_cons. split; [| by apply IH].
  intros (y & Hy & Hin)%list_elem_of_fmap.
  apply list_elem_of_filter in Hin as [_ Hin].
  apply Hx. rewrite Hy. by apply list_elem_of_fmap_2.
Qed.

(** Among meshes with pairwise distinct [f]-values, the [f]-values of the
    meshes passing a test are not those of any mesh failing it. *)
Lemma passing_values {B} (f : Mesh -> B) (test : Mesh -> bool)
    (l : list Mesh) (m : Mesh) :
  NoDup (f <$> l) -> m ∈ l ->
  (f m ∉ f <$> filter (λ x, test x) l) <-> ¬ test m.
Proof.
  intros Hnd Hm. split.
  - intros Hnot Ht. apply Hnot. apply list_elem_of_fmap_2.
    by apply list_elem_of_filter.
  - intros Hnt (y & Hy & Hin)%list_elem_of_fmap.
    apply list_elem_of_filter in Hin as [Hty Hin].
    assert (m = y) as -> by by eapply fmap_inj_in.
    by apply Hnt.
Qed.

Lemma registered_removeLoop lights test e :
  registered lights e -> registered lights (exec (removeLoop test) e).
Proof.
  intros (Hs & Hw & Hnd & Hnp & Hid & Hfr).
  pose proof (removeLoop_spec test e) as (Hr & Hs' & Hw' & HA & _ & _ & Ho & _).
  apply NoDup_app in Hnd as (HndL & Hdisj & HndU).
  repeat split.
  - rewrite Hs', Hr, Hs, filter_app. f_equal.
    + apply filter_keep_in. intros c Hc (y & Hy & Hin)%list_elem_of_fmap.
      apply list_elem_of_filter in Hin as [_ Hin].
      apply (Hdisj c Hc). rewrite Hy. by apply list_elem_of_fmap_2.
    + rewrite filter_fmap_pre. f_equal. apply filter_iff_in.
      intros m Hm. by apply passing_values.
  - rewrite Hw', Hr, Hw. apply set_eq. intros p.
    rewrite elem_of_difference, !elem_of_list_to_set. split.
    + intros [(m & -> & Hm)%list_elem_of_fmap Hnot].
      apply list_elem_of_fmap_2, list_elem_of_filter. split; [| done].
      by apply (passing_values physicsBody test (rigidBodies e) m).
    + intros (m & -> & Hin)%list_elem_of_fmap.
      apply list_elem_of_filter in Hin as [Hnt Hm].
      split; [by apply list_elem_of_fmap_2 |].
      by apply (passing_values physicsBody test (rigidBodies e) m).
  - rewrite Hr. apply NoDup_app. split; [done |]. split.
    + intros c Hc (y & Hy & Hin)%list_elem_of_fmap.
      apply list_elem_of_filter in Hin as [_ Hin].
      apply (Hdisj c Hc). rewrite Hy. by apply list_elem_of_fmap_2.
    + by apply NoDup_fmap_filter.
  - rewrite Hr. by apply NoDup_fmap_filter.
  - rewrite Hr, Ho. intros c Hc. apply Hid.
    apply elem_of_app in Hc as [Hc | (y & Hy & Hin)%list_elem_of_fmap];
      apply elem_of_app; [by left | right].
    apply list_elem_of_filter in Hin as [_ Hin].
    rewrite Hy. by apply list_elem_of_fmap_2.
  - by apply fresh_ptrs_removeLoop.
Qed.

Lemma registered_spawn lights g shape pos q ms nm color e :
  registered lights e ->
  registered lights (spawn g shape pos q ms nm color e).
Proof.
  intros (Hs & Hw & Hnd & Hnp & Hid & Hfr).
  unfold registered. cbn [scene rigidBodies physicsUniverse collisionObjects
                          objectCount spawn].
  rewrite !fmap_app. cbn [fmap list_fmap newMesh uuid physicsBody].
  assert (Hnew : objectCount e ∉ lights ++ (uuid <$> rigidBodies e)).
  { intros Hin. specialize (Hid _ Hin). lia. }
  assert (Hptr : brk (Ammo e) ∉ physicsBody <$> rigidBodies e).
  { intros (m & Hm & Hin)%list_elem_of_fmap. specialize (Hfr m Hin). lia. }
  repeat split.
  - rewrite Hs, app_assoc. f_equal. apply filter_keep_in.
    intros c Hc ->. by apply Hnew.
  - rewrite Hw, list_to_set_snoc_L. set_solver.
  - rewrite app_assoc. apply NoDup_app. split; [done |]. split.
    + intros c Hc ->%list_elem_of_singleton. by apply Hnew.
    + apply NoDup_singleton.
  - apply NoDup_app. split; [done |]. split.
    + intros c Hc ->%list_elem_of_singleton. by apply Hptr.
    + apply NoDup_singleton.
  - intros c. rewrite app_assoc.
    intros [Hc | ->%list_elem_of_singleton]%elem_of_app; [| lia].
    specialize (Hid c Hc). lia.
  - by apply fresh_ptrs_spawn.
Qed.

Lemma registered_spawnKind lights k rp e :
  registered lights e -> registered lights (spawnKind k rp e).
Proof. destruct k; apply registered_spawn. Qed.

Lemma registered_makeFloor lights e :
  registered lights e -> registered lights (exec makeFloor e).
Proof.
  intros H. rewrite makeFloor_exec. unfold spawnBox.
  by do 5 apply registered_spawn.
Qed.

Lemma registered_render lights stepSimulation deltaTime e :
  registered lights e ->
  registered lights (exec (render stepSimulation deltaTime) e).
Proof.
  intros (Hs & Hw & Hnd & Hnp & Hid & Hfr).
  pose proof (render_spec stepSimulation deltaTime e)
    as (Hr & HA & Hp & _ & Hs' & _ & Ho).
  assert (Hu : forall (l : list Mesh) mem,
             uuid <$> (synced mem <$> l) = uuid <$> l).
  { intros l mem. rewrite <- list_fmap_compose. apply list_fmap_ext.
    intros i m _. cbn. unfold synced.
    by destruct (getMotionState mem (physicsBody m)). }
  assert (Hb : forall (l : list Mesh) mem,
             physicsBody <$> (synced mem <$> l) = physicsBody <$> l).
  { intros l mem. rewrite <- list_fmap_compose. apply list_fmap_ext.
    intros i m _. cbn. apply physicsBody_synced. }
  unfold registered. rewrite Hr, Hp, Hs', Ho, Hu, Hb.
  repeat split; try done. by apply fresh_ptrs_render.
Qed.

Lemma registered_lifecycle lights stepSimulation a e' fl :
  lifecycle stepSimulation a e' fl ->
  registered lights (E a) -> registered lights e'.
Proof.
  intros Hstep Hreg. destruct Hstep as [| k rp | | Hfl | Hfl | deltaTime].
  - done.
  - by apply registered_spawnKind.
  - by apply registered_removeLoop.
  - by apply registered_removeLoop.
  - by apply registered_makeFloor.
  - by apply registered_render.
Qed.

Lemma registered_run lights random stepSimulation evs :
  forall a,
    registered lights (E a) ->
    registered lights (E (run random stepSimulation evs a)).
Proof.
  induction evs as [| ev evs IH]; intros a Ha; [exact Ha |].
  cbn [run fold_left]. apply IH.
  eapply registered_lifecycle; [| exact Ha].
  apply (handle_lifecycle random stepSimulation ev a).
Qed.

Lemma registered_main stepSimulation deltaTime :
  registered [0; 1]%nat (E (main stepSimulation deltaTime)).
Proof.
  assert (H : exists e0,
             E (main stepSimulation deltaTime) = exec makeFloor e0 /\
             rigidBodies e0 = [] /\ scene e0 = [0; 1]%nat /\
             collisionObjects (physicsUniverse e0) = ∅ /\
             objectCount e0 = 2%nat).
  { unfold main. cbn [E]. rewrite !exec_bind.
    eexists. split; [reflexivity |]. repeat split; reflexivity. }
  destruct H as (e0 & -> & Hr & Hs & Hw & Ho).
  apply registered_makeFloor. unfold registered, fresh_ptrs.
  rewrite Hr, Hs, Hw, Ho. cbn. repeat split.
  - apply NoDup_cons. split; [| apply NoDup_singleton].
    intros ?%list_elem_of_singleton. done.
  - apply NoDup_nil_2.
  - intros c [-> | [-> | []%elem_of_nil]%elem_of_cons]%elem_of_cons; lia.
  - intros m []%elem_of_nil.
Qed.

(** X4: in every state the page can reach, the children of the scene are
    the two lights followed by the registry's meshes in registry order, the
    bodies registered in the physics world are exactly the bodies behind
    the registry's meshes, and no two registry meshes share an identity or
    a body: no mesh is drawn without being simulated, or simulated without
    being drawn, and none is left behind by a removal. *)
Theorem scene_world_match_registry (random : nat -> Q)
    (stepSimulation :
       Q -> nat -> btDiscreteDynamicsWorld ->
       gmap nat btRigidBody -> gmap nat btRigidBody)
    (deltaTime : Q) (evs : list Event) :
  let e := E (run random stepSimulation evs (main stepSimulation deltaTime)) in
  scene e = [0; 1]%nat ++ (uuid <$> rigidBodies e) /\
  collisionObjects (physicsUniverse e)
    = list_to_set (physicsBody <$> rigidBodies e) /\
  NoDup (uuid <$> rigidBodies e) /\
  NoDup (physicsBody <$> rigidBodies e).
Proof.
  intros e.
  assert (H : registered [0; 1]%nat e).
  { apply registered_run, registered_main. }
  destruct H as (Hs & Hw & Hnd & Hnp & _).
  apply NoDup_app in Hnd as (_ & _ & Hnd). done.
Qed.

(** ** What a frame leaves alone *)

(** X5: a frame never adds, removes, reorders, renames or re-shapes a
    registry mesh, whatever the physics step does: only positions and
    quaternions can change.  The scene's children, the world's registered
    bodies and gravity, the callback and both allocators are as before. *)
Theorem render_keeps_composition
    (stepSimulation :
       Q -> nat -> btDiscreteDynamicsWorld ->
       gmap nat btRigidBody -> gmap nat btRigidBody)
    (deltaTime : Q) (e : Engine) :
  let e' := exec (render stepSimulation deltaTime) e in
  makeup <$> rigidBodies e' = makeup <$> rigidBodies e /\
  scene e' = scene e /\
  physicsUniverse e' = physicsUniverse e /\
  renderCallback e' = renderCallback e /\
  objectCount e' = objectCount e /\
  brk (Ammo e') = brk (Ammo e).
Proof.
  pose proof (render_spec stepSimulation deltaTime e)
    as (Hr & HA & Hp & _ & Hs & Hc & Ho).
  cbn zeta. rewrite Hr, HA, Hp, Hs, Hc, Ho. repeat split; try done.
  rewrite <- list_fmap_compose. apply list_fmap_ext. intros i m _. cbn.
  unfold synced. by destruct (getMotionState _ (physicsBody m)).
Qed.

(** ** Removal at the edges *)

Lemma Engine_ext (e e' : Engine) :
  Ammo e' = Ammo e -> rigidBodies e' = rigidBodies e ->
  renderCallback e' = renderCallback e -> scene e' = scene e ->
  gravity (physicsUniverse e') = gravity (physicsUniverse e) ->
  collisionObjects (physicsUniverse e')
    = collisionObjects (physicsUniverse e) ->
  tmpTransformation e' = tmpTransformation e ->
  objectCount e' = objectCount e -> trace e' = trace e ->
  e' = e.
Proof.
  destruct e as [A r c s [g w] t o tr], e' as [A' r' c' s' [g' w'] t' o' tr'].
  cbn. by intros -> -> -> -> -> -> -> -> ->.
Qed.

(** The removal loop with a test no registry mesh passes (in particular on
    an empty registry) changes nothing. *)
Lemma removeLoop_no_match (test : Mesh -> bool) e :
  filter (λ m, test m) (rigidBodies e) = [] ->
  exec (removeLoop test) e = e.
Proof.
  intros Hnone.
  pose proof (removeLoop_spec test e)
    as (Hr & Hs & Hw & HA & Hc & Ht & Ho & Htr & Hg).
  rewrite Hnone in Hs, Hw. cbn in Hs, Hw.
  apply Engine_ext; try done.
  - rewrite Hr. apply filter_keep_in. intros m Hm Ht'.
    assert (Hin : m ∈ filter (λ m, test m) (rigidBodies e))
      by by apply list_elem_of_filter.
    rewrite Hnone in Hin. by apply elem_of_nil in Hin.
  - rewrite Hs. apply filter_keep_in. intros c _. apply not_elem_of_nil.
  - rewrite Hw. apply difference_empty_L.
Qed.

Lemma set_E_same (a : App) : set_E (E a) a = a.
Proof. by destruct a. Qed.

(** X6: key R with no non-floor mesh in the registry (in particular with an
    empty registry) changes nothing but the generator state; hence pressing
    R twice is pressing it once, up to the ten more draws. *)
Theorem keyR_nothing_to_remove (random : nat -> Q) (a : App) :
  nonFloors (E a) = [] ->
  exec (onKeypress random "KeyR") a = drawn a /\
  exec (onKeypress random "KeyR") (exec (onKeypress random "KeyR") a)
  = drawn (exec (onKeypress random "KeyR") a).
Proof.
  assert (Hgen : forall b, nonFloors (E b) = [] ->
                           exec (onKeypress random "KeyR") b = drawn b).
  { intros b Hb. rewrite onKeypress_KeyR.
    rewrite removeLoop_no_match.
    - change (E b) with (E (drawn b)). apply set_E_same.
    - rewrite <- Hb. apply list_filter_iff. intros m.
      destruct (is_floor m); cbn; tauto. }
  intros Ha. split; [by apply Hgen |].
  apply Hgen. rewrite Hgen by done. exact Ha.
Qed.

Lemma keyR_nothing_to_remove_witness :
  let a := exec (onKeypress cyclic_random "KeyR") demo_app in
  exec (onKeypress cyclic_random "KeyR") a = drawn a /\
  exec (onKeypress cyclic_random "KeyR")
    (exec (onKeypress cyclic_random "KeyR") a)
  = drawn (exec (onKeypress cyclic_random "KeyR") a).
Proof.
  apply (keyR_nothing_to_remove cyclic_random
           (exec (onKeypress cyclic_random "KeyR") demo_app)).
  vm_compute. reflexivity.
Defined.

(** X7: key F with the floor showing is the mirror image of key R: the
    registry keeps exactly the meshes that are not floor-named, in their
    order; every floor-named mesh leaves the scene and its body leaves the
    world, and nothing else does; the flag is cleared. *)
Theorem keyF_removes_floor (random : nat -> Q) (a : App) :
  floorIsShowing a = true ->
  let a' := exec (onKeypress random "KeyF") a in
  let removed := floors (E a) in
  rigidBodies (E a') = nonFloors (E a) /\
  floors (E a') = [] /\
  (forall m, m ∈ removed ->
     (uuid m ∉ scene (E a')) /\
     (physicsBody m ∉ collisionObjects (physicsUniverse (E a')))) /\
  scene (E a') = filter (λ c, c ∉ uuid <$> removed) (scene (E a)) /\
  collisionObjects (physicsUniverse (E a')) =
    collisionObjects (physicsUniverse (E a))
      ∖ list_to_set (physicsBody <$> removed) /\
  floorIsShowing a' = false.
Proof.
  intros Hfl a' removed. subst a'. rewrite onKeypress_KeyF, Hfl.
  cbn [E set_E set_floorIsShowing floorIsShowing].
  pose proof (removeLoop_spec is_floor (E a)) as (Hr & Hs & Hw & _).
  change (E (drawn a)) with (E a).
  split; [exact Hr |]. split; [apply floors_removeLoop_floor |].
  split; [| by repeat split].
  intros m Hm. split.
  - rewrite Hs. intros Hin. apply list_elem_of_filter in Hin as [Hn _].
    apply Hn. by apply list_elem_of_fmap_2.
  - rewrite Hw. intros Hin. apply elem_of_difference in Hin as [_ Hn].
    apply Hn. apply elem_of_list_to_set. by apply list_elem_of_fmap_2.
Qed.

Lemma keyF_removes_floor_witness :
  let a' := exec (onKeypress cyclic_random "KeyF") demo_app in
  rigidBodies (E a') = nonFloors (E demo_app) /\ floors (E a') = [].
Proof.
  pose proof (keyF_removes_floor cyclic_random demo_app eq_refl)
    as (H1 & H2 & _).
  split; [exact H1 | exact H2].
Defined.

(** X8: removal never frees: key R, and key F with the floor showing, take
    bodies out of the world but leave the physics engine's memory and its
    allocator exactly as they were, so the bodies of removed meshes stay
    allocated; key F with the floor hidden allocates five more. *)
Theorem removal_never_frees (random : nat -> Q) (a : App) :
  Ammo (E (exec (onKeypress random "KeyR") a)) = Ammo (E a) /\
  Ammo (E (exec (onKeypress random "KeyF") a)) =
    (if floorIsShowing a then Ammo (E a) else Ammo (exec makeFloor (E a))) /\
  brk (Ammo (exec makeFloor (E a))) = (5 + brk (Ammo (E a)))%nat /\
  (forall p b, memory (Ammo (E a)) !! p = Some b ->
               (p < brk (Ammo (E a)))%nat ->
               memory (Ammo (exec makeFloor (E a))) !! p = Some b).
Proof.
  split; [| split; [| split]].
  - rewrite onKeypress_KeyR. cbn [E set_E].
    by pose proof (removeLoop_spec (fun m => negb (is_floor m)) (E (drawn a)))
      as (_ & _ & _ & HA & _).
  - rewrite onKeypress_KeyF. destruct (floorIsShowing a); [| done].
    cbn [E set_E set_floorIsShowing].
    by pose proof (removeLoop_spec is_floor (E (drawn a)))
      as (_ & _ & _ & HA & _).
  - by rewrite makeFloor_exec.
  - intros p b Hp Hlt. rewrite makeFloor_exec.
    unfold spawnBox, spawn. cbn [Ammo memory brk].
    rewrite !lookup_insert_ne by lia. exact Hp.
Qed.

(** X9: with the floor showing in a state the page can reach, R and F
    pressed in either order clear everything: the registry is empty, the
    scene holds only the two lights and the world no body. *)
Theorem clear_everything (random : nat -> Q)
    (stepSimulation :
       Q -> nat -> btDiscreteDynamicsWorld ->
       gmap nat btRigidBody -> gmap nat btRigidBody)
    (deltaTime : Q) (evs : list Event) :
  let a := run random stepSimulation evs (main stepSimulation deltaTime) in
  floorIsShowing a = true ->
  let rf := exec (onKeypress random "KeyF") (exec (onKeypress random "KeyR") a) in
  let fr := exec (onKeypress random "KeyR") (exec (onKeypress random "KeyF") a) in
  (rigidBodies (E rf) = [] /\ scene (E rf) = [0; 1]%nat /\
   collisionObjects (physicsUniverse (E rf)) = ∅ /\
   floorIsShowing rf = false) /\
  (rigidBodies (E fr) = [] /\ scene (E fr) = [0; 1]%nat /\
   collisionObjects (physicsUniverse (E fr)) = ∅ /\
   floorIsShowing fr = false).
Proof.
  intros a Hfl rf fr.
  assert (Ha : registered [0; 1]%nat (E a))
    by apply registered_run, registered_main.
  assert (Hkey : forall code b,
             registered [0; 1]%nat (E b) ->
             registered [0; 1]%nat (E (exec (onKeypress random code) b))).
  { intros code b Hb. eapply registered_lifecycle; [| exact Hb].
    apply (onKeypress_lifecycle random stepSimulation code b). }
  assert (Hempty : forall b,
             registered [0; 1]%nat (E b) -> rigidBodies (E b) = [] ->
             scene (E b) = [0; 1]%nat /\
             collisionObjects (physicsUniverse (E b)) = ∅).
  { intros b (Hs & Hw & _) Hr. rewrite Hs, Hw, Hr. done. }
  assert (Hrf : rigidBodies (E rf) = [] /\ floorIsShowing rf = false).
  { subst rf. rewrite onKeypress_KeyF.
    assert (Hfl' : floorIsShowing (exec (onKeypress random "KeyR") a) = true)
      by by rewrite onKeypress_KeyR.
    rewrite Hfl'. cbn [E set_E set_floorIsShowing floorIsShowing].
    split; [| done]. rewrite removeLoop_floor_registry.
    change (E (drawn ?x)) with (E x). unfold nonFloors.
    rewrite onKeypress_KeyR. cbn [E set_E].
    rewrite removeLoop_nonFloor_registry. apply nonFloors_of_floors. }
  assert (Hfr : rigidBodies (E fr) = [] /\ floorIsShowing fr = false).
  { subst fr. rewrite onKeypress_KeyR. cbn [E set_E floorIsShowing].
    rewrite removeLoop_nonFloor_registry.
    change (E (drawn ?x)) with (E x). change (floorIsShowing (drawn ?x))
      with (floorIsShowing x).
    rewrite onKeypress_KeyF, Hfl.
    cbn [E set_E set_floorIsShowing floorIsShowing]. split; [| done].
    unfold floors. rewrite removeLoop_floor_registry.
    apply floors_of_nonFloors. }
  destruct Hrf as [Hrf1 Hrf2], Hfr as [Hfr1 Hfr2].
  destruct (Hempty rf) as [? ?]; [by do 2 apply Hkey | done |].
  destruct (Hempty fr) as [? ?]; [by do 2 apply Hkey | done |].
  done.
Qed.

Lemma clear_everything_witness :
  let rf := exec (onKeypress cyclic_random "KeyF")
              (exec (onKeypress cyclic_random "KeyR") demo_app) in
  rigidBodies (E rf) = [] /\ scene (E rf) = [0; 1]%nat /\
  collisionObjects (physicsUniverse (E rf)) = ∅ /\
  floorIsShowing rf = false.
Proof.
  exact (proj1 (clear_everything cyclic_random demo_step 0
                  [Keypress "KeyB"; AnimationFrame 1] eq_refl)).
Defined.

Lemma removal_never_frees_witness :
  memory (Ammo (exec makeFloor demo_engine)) !! 1%nat =
  Some (mkBody 5 (Some (mkTransform (mkVec3 0 20 0) (mkQuat 0 0 0 1)))
          (btSphereShape 1) 0.05 0.75).
Proof.
  refine (proj2 (proj2 (proj2
            (removal_never_frees cyclic_random
               (mkApp demo_engine true None 0 0)))) 1%nat _ _ _).
  - reflexivity.
  - cbn. lia.
Defined.

(** ** Spawning in sequence *)

Lemma spawnKind_appends k rp e :
  exists mesh,
    rigidBodies (spawnKind k rp e) = rigidBodies e ++ [mesh] /\
    ¬ is_floor mesh.
Proof. destruct k; eexists; (split; [reflexivity |]); cbn; tauto. Qed.

Section SpawnSequences.

Variable random : nat -> Q.
Hypothesis random_unit : unit_interval random.
Variable stepSimulation :
  Q -> nat -> btDiscreteDynamicsWorld ->
  gmap nat btRigidBody -> gmap nat btRigidBody.

Lemma spawn_key_exec code a :
  code = "KeyS" \/ code = "KeyB" \/ code = "KeyC" \/ code = "Space" ->
  exists k n,
    exec (onKeypress random code) a =
    set_E (spawnKind k (paramsOf random a) (E a)) (set_randomCalls n a).
Proof.
  intros [-> | [-> | [-> | ->]]].
  - exists sphere. eexists. apply onKeypress_KeyS.
  - exists box. eexists. apply onKeypress_KeyB.
  - exists capsule. eexists. apply onKeypress_KeyC.
  - eexists. eexists. by apply onKeypress_Space.
Qed.

Lemma run_app evs1 evs2 a :
  run random stepSimulation (evs1 ++ evs2) a =
  run random stepSimulation evs2 (run random stepSimulation evs1 a).
Proof. unfold run. apply fold_left_app. Qed.

Lemma run_spawn_keys codes :
  forall a,
    Forall (fun code => code = "KeyS" \/ code = "KeyB" \/ code = "KeyC"
                        \/ code = "Space") codes ->
    let a' := run random stepSimulation (Keypress <$> codes) a in
    (exists news,
        rigidBodies (E a') = rigidBodies (E a) ++ news /\
        length news = length codes /\
        Forall (fun m => ¬ is_floor m) news) /\
    floorIsShowing a' = floorIsShowing a /\
    intervalRef a' = intervalRef a.
Proof.
  induction codes as [| code codes IH]; intros a Hcodes; cbn zeta.
  - cbn. split; [| done]. exists []. by rewrite app_nil_r.
  - apply Forall_cons in Hcodes as [Hcode Hcodes].
    rewrite fmap_cons. cbn [run fold_left handle].
    destruct (spawn_key_exec code a Hcode) as (k & n & Heq).
    specialize (IH (exec (onKeypress random code) a) Hcodes).
    cbn zeta in IH. unfold run in IH.
    destruct IH as ((news & Hreg & Hlen & Hnf) & Hfl & Hint).
    rewrite Hreg, Hfl, Hint, Heq.
    cbn [E set_E floorIsShowing intervalRef set_randomCalls].
    destruct (spawnKind_appends k (paramsOf random a) (E a))
      as (mesh & -> & Hmesh).
    split; [| done]. exists (mesh :: news).
    rewrite <- app_assoc. cbn. split; [done |]. split; [by rewrite Hlen |].
    by constructor.
Qed.

Lemma run_ticks_on n :
  forall a,
    is_Some (intervalRef a) ->
    let a' := run random stepSimulation (repeat IntervalElapsed n) a in
    (exists news,
        rigidBodies (E a') = rigidBodies (E a) ++ news /\
        length news = n /\
        Forall (fun m => ¬ is_floor m) news) /\
    floorIsShowing a' = floorIsShowing a /\
    intervalRef a' = intervalRef a /\
    randomCalls a' = (randomCalls a + 11 * n)%nat.
Proof.
  induction n as [| n IH]; intros a Hon; cbn zeta.
  - cbn. split; [| split; [done | split; [done | lia]]].
    exists []. by rewrite app_nil_r.
  - cbn [repeat run fold_left handle]. rewrite exec_bind.
    change (eval get a) with a. change (exec get a) with a.
    destruct Hon as [h Hh]. rewrite Hh.
    rewrite (intervalCallback_exec random random_unit).
    set (a1 := set_E _ _).
    assert (Hon1 : is_Some (intervalRef a1)) by (subst a1; cbn; by rewrite Hh).
    specialize (IH a1 Hon1). cbn zeta in IH. unfold run in IH.
    destruct IH as ((news & Hreg & Hlen & Hnf) & Hfl & Hint & Hrc).
    rewrite Hreg, Hfl, Hint, Hrc. subst a1.
    cbn [E set_E floorIsShowing intervalRef randomCalls set_randomCalls].
    destruct (spawnKind_appends
                (kindOfDraw (random (10 + randomCalls a)%nat))
                (paramsOf random a) (E a)) as (mesh & -> & Hmesh).
    split; [| split; [done | split; [done | lia]]].
    exists (mesh :: news). rewrite <- app_assoc. cbn.
    split; [done |]. split; [by rewrite Hlen |]. by constructor.
Qed.

Lemma run_ticks_off n a :
  intervalRef a = None ->
  run random stepSimulation (repeat IntervalElapsed n) a = a.
Proof.
  intros Hoff. induction n as [| n IH]; [done |].
  cbn [repeat run fold_left handle]. rewrite exec_bind.
  change (eval get a) with a. change (exec get a) with a.
  rewrite Hoff. exact IH.
Qed.

End SpawnSequences.

(** X10: any sequence of the spawn keys (S, B, C, Space) only appends to
    the registry: the meshes that were there stay, in place and in order,
    one mesh is added per key press, and none of the added meshes is
    floor-named; the floor flag and the timer are untouched. *)
Theorem spawn_keys_append (random : nat -> Q)
    (random_unit : unit_interval random)
    (stepSimulation :
       Q -> nat -> btDiscreteDynamicsWorld ->
       gmap nat btRigidBody -> gmap nat btRigidBody)
    (codes : list string) (a : App) :
  Forall (fun code => code = "KeyS" \/ code = "KeyB" \/ code = "KeyC"
                      \/ code = "Space") codes ->
  let a' := run random stepSimulation (Keypress <$> codes) a in
  (exists news,
      rigidBodies (E a') = rigidBodies (E a) ++ news /\
      length news = length codes /\
      Forall (fun m => ¬ is_floor m) news) /\
  floorIsShowing a' = floorIsShowing a /\
  intervalRef a' = intervalRef a.
Proof. intros H. by apply run_spawn_keys. Qed.

Lemma spawn_keys_append_witness :
  let a' := run cyclic_random demo_step
              (Keypress <$> ["KeyS"; "Space"; "KeyC"]) demo_app in
  (exists news,
      rigidBodies (E a') = rigidBodies (E demo_app) ++ news /\
      length news = 3%nat /\
      Forall (fun m => ¬ is_floor m) news) /\
  floorIsShowing a' = floorIsShowing demo_app /\
  intervalRef a' = intervalRef demo_app.
Proof.
  apply (spawn_keys_append cyclic_random cyclic_random_unit demo_step
           ["KeyS"; "Space"; "KeyC"] demo_app).
  repeat constructor; tauto.
Defined.

(** X11: auto-spawn runs exactly between two presses of G.  From a state
    with no timer, G, then [n] timer ticks, then G, then [m] more ticks:
    the [n] ticks between the presses append one non-floor mesh each, the
    [m] ticks after the second press do nothing, the timer is off at the
    end, and the generator has advanced by ten draws per press and eleven
    per effective tick. *)
Theorem auto_spawn_window (random : nat -> Q)
    (random_unit : unit_interval random)
    (stepSimulation :
       Q -> nat -> btDiscreteDynamicsWorld ->
       gmap nat btRigidBody -> gmap nat btRigidBody)
    (n m : nat) (a : App) :
  intervalRef a = None ->
  let a' :=
    run random stepSimulation
      (Keypress "KeyG" :: repeat IntervalElapsed n
         ++ Keypress "KeyG" :: repeat IntervalElapsed m) a in
  (exists news,
      rigidBodies (E a') = rigidBodies (E a) ++ news /\
      length news = n /\
      Forall (fun m => ¬ is_floor m) news) /\
  floorIsShowing a' = floorIsShowing a /\
  intervalRef a' = None /\
  randomCalls a' = (randomCalls a + 20 + 11 * n)%nat.
Proof.
  intros Hoff a'. subst a'.
  change (run random stepSimulation (Keypress "KeyG" :: ?l) a)
    with (run random stepSimulation l (exec (onKeypress random "KeyG") a)).
  rewrite run_app.
  set (a1 := exec (onKeypress random "KeyG") a).
  assert (H1 : E a1 = E a /\ floorIsShowing a1 = floorIsShowing a /\
               is_Some (intervalRef a1) /\
               randomCalls a1 = (randomCalls a + 10)%nat).
  { subst a1. rewrite onKeypress_KeyG, Hoff. cbn.
    repeat split; [by eexists | lia]. }
  destruct H1 as (HE1 & Hf1 & Hon1 & Hr1).
  pose proof (run_ticks_on random random_unit stepSimulation n a1 Hon1) as H2.
  cbn zeta in H2.
  set (a2 := run random stepSimulation (repeat IntervalElapsed n) a1) in *.
  destruct H2 as (Hnews & Hf2 & Hi2 & Hr2).
  change (run random stepSimulation (Keypress "KeyG" :: ?l) a2)
    with (run random stepSimulation l (exec (onKeypress random "KeyG") a2)).
  set (a3 := exec (onKeypress random "KeyG") a2).
  assert (H3 : E a3 = E a2 /\ floorIsShowing a3 = floorIsShowing a2 /\
               intervalRef a3 = None /\
               randomCalls a3 = (randomCalls a2 + 10)%nat).
  { subst a3. rewrite onKeypress_KeyG.
    destruct Hon1 as [h Hh]. rewrite Hi2, Hh. cbn. repeat split. lia. }
  destruct H3 as (HE3 & Hf3 & Hi3 & Hr3).
  rewrite run_ticks_off by done.
  rewrite HE3, Hf3, Hi3, Hr3, Hf2, Hf1, Hr2, Hr1, <- HE1.
  split; [exact Hnews |]. repeat split. lia.
Qed.

Lemma auto_spawn_window_witness :
  let a' :=
    run cyclic_random demo_step
      (Keypress "KeyG" :: repeat IntervalElapsed 2
         ++ Keypress "KeyG" :: repeat IntervalElapsed 3) demo_app in
  (exists news,
      rigidBodies (E a') = rigidBodies (E demo_app) ++ news /\
      length news = 2%nat /\
      Forall (fun m => ¬ is_floor m) news) /\
  floorIsShowing a' = floorIsShowing demo_app /\
  intervalRef a' = None /\
  randomCalls a' = (randomCalls demo_app + 20 + 11 * 2)%nat.
Proof.
  exact (auto_spawn_window cyclic_random cyclic_random_unit demo_step 2 3
           demo_app eq_refl).
Defined.

(** ** The frame rate *)


(** ** The parameter readout *)

Lemma append_cons (c : Ascii.ascii) (s u : string) :
  (String c s ++ u)%string = String c (s ++ u)%string.
Proof. reflexivity. Qed.

Lemma length_append (s u : string) :
  String.length (s ++ u)%string = (String.length s + String.length u)%nat.
Proof.
  induction s as [| c s IH]; [done |].
  rewrite append_cons. cbn [String.length]. by rewrite IH.
Qed.

Lemma append_inj_r (s1 s2 t : string) :
  (s1 ++ t)%string = (s2 ++ t)%string -> s1 = s2.
Proof.
  revert s2. induction s1 as [| c s1 IH]; intros [| c' s2] H.
  - done.
  - apply (f_equal String.length) in H.
    rewrite append_cons in H. cbn [String.length] in H.
    rewrite !length_append in H. cbn [String.length] in H. lia.
  - apply (f_equal String.length) in H.
    rewrite append_cons in H. cbn [String.length] in H.
    rewrite !length_append in H. cbn [String.length] in H. lia.
  - rewrite !append_cons in H. injection H as -> H. f_equal. by apply IH.
Qed.

Section Find.

Context {A : Type} (P : A -> Prop) `{!forall x, Decision (P x)}.

(** Overwriting the element found, by one that still satisfies [P]. *)
Lemma list_find_insert_found (l : list A) i x y :
  list_find P l = Some (i, x) -> P y ->
  list_find P (<[i := y]> l) = Some (i, y).
Proof.
  intros (Hi & Hx & Hmin)%list_find_Some Hy. apply list_find_Some.
  split; [| split; [done |]].
  - apply list_lookup_insert_eq. by eapply lookup_lt_Some.
  - intros j z Hj Hlt. rewrite list_lookup_insert_ne in Hj by lia.
    by eapply Hmin.
Qed.

(** Overwriting an element that fails [P] by one that fails [P]. *)
Lemma list_find_insert_other (l : list A) i x y :
  l !! i = Some x -> ¬ P x -> ¬ P y ->
  list_find P (<[i := y]> l) = list_find P l.
Proof.
  intros Hi Hx Hy. destruct (list_find P l) as [[j z] |] eqn:Hfind.
  - apply list_find_Some in Hfind as (Hj & Hz & Hmin).
    assert (j <> i) by (intros ->; congruence).
    apply list_find_Some. split; [| split; [done |]].
    + by rewrite list_lookup_insert_ne.
    + intros j' z' Hj' Hlt. destruct (decide (j' = i)) as [-> | Hne].
      * rewrite list_lookup_insert_eq in Hj' by by eapply lookup_lt_Some.
        by injection Hj' as <-.
      * rewrite list_lookup_insert_ne in Hj' by done. by eapply Hmin.
  - apply list_find_None in Hfind. apply list_find_None.
    apply Forall_insert; done.
Qed.

End Find.

Lemma registeredName_find (name : string) (p : Page) :
  registeredName name p <->
  list_find (λ s, span_name s = (name ++ "-value")%string)
    (parameter_readout p) <> None.
Proof.
  unfold registeredName. split.
  - intros (s & Hs & Hin)%list_elem_of_fmap Hnone.
    apply list_find_None in Hnone.
    rewrite Forall_forall in Hnone. by apply (Hnone s).
  - intros Hfind.
    destruct (list_find _ (parameter_readout p)) as [[i s] |] eqn:E;
      [| done].
    apply list_find_Some in E as (Hi & Hs & _).
    apply list_elem_of_fmap. exists s. split; [done |].
    by eapply list_elem_of_lookup_2.
Qed.

Lemma shown_insert_other (name other : string) (p : Page) i element v :
  parameter_readout p !! i = Some element ->
  span_name element = (name ++ "-value")%string ->
  other <> name ->
  shown other
    (mkPage (<[i := mkSlot (paragraph_name element) (label element)
                      (span_name element) (Some v)]> (parameter_readout p))
       (info_readout p) (lastFrameTime p))
  = shown other p.
Proof.
  intros Hi Hname Hother. unfold shown, getChildElementsByName.
  cbn [parameter_readout].
  destruct (is_identifier (other ++ "-value")); [| done].
  erewrite list_find_insert_other; [done | exact Hi | |]; cbn;
    rewrite ?Hname; intros Heq%append_inj_r; by apply Hother.
Qed.

Lemma fmap_insert_same {B} (f : Slot -> B) (l : list Slot) i x y :
  l !! i = Some x -> f y = f x -> f <$> <[i := y]> l = f <$> l.
Proof.
  intros Hi Hf. apply list_eq. intros j. rewrite !list_lookup_fmap.
  destruct (decide (j = i)) as [-> | Hne].
  - rewrite list_lookup_insert_eq by by eapply lookup_lt_Some.
    rewrite Hi. cbn. by rewrite Hf.
  - by rewrite list_lookup_insert_ne.
Qed.

Lemma updateInfoParameterValue_cases (name : string) (value : JSNumber)
    (p : Page) :
  match updateInfoParameterValue name value p with
  | (Some _, p') =>
      is_identifier (name ++ "-value") = true /\
      registeredName name p /\
      shown name p <> None /\
      shown name p' = Some (Some value) /\
      (forall other, other <> name -> shown other p' = shown other p) /\
      span_name <$> parameter_readout p' = span_name <$> parameter_readout p /\
      label <$> parameter_readout p' = label <$> parameter_readout p /\
      info_readout p' = info_readout p /\
      lastFrameTime p' = lastFrameTime p
  | (None, p') =>
      (is_identifier (name ++ "-value") = false \/
       ¬ registeredName name p) /\
      shown name p = None /\ p' = p
  end.
Proof.
  pose proof (registeredName_find name p) as Hreg.
  unfold updateInfoParameterValue, shown, getChildElementsByName.
  destruct (is_identifier (name ++ "-value")) eqn:Hid.
  2:{ split; [by left | done]. }
  destruct (list_find (λ s, span_name s = (name ++ "-value")%string)
              (parameter_readout p)) as [[i element] |] eqn:Hfind.
  2:{ split; [right; intros H%Hreg; by apply H | done]. }
  pose proof Hfind as (Hi & Hname & _)%list_find_Some.
  split; [done |]. split; [by apply Hreg |]. split; [done |].
  split; [| split; [| split; [| split]]].
  - cbn [parameter_readout].
    by erewrite list_find_insert_found.
  - intros other Hother.
    by apply (shown_insert_other name other p i element value).
  - by apply (fmap_insert_same span_name _ i element).
  - by apply (fmap_insert_same label _ i element).
  - done.
Qed.

(** X14: for a name of letters, digits, [_] and [-],
    [updateInfoParameterValue(name, value)] throws exactly when the text
    [name-value] is not an identifier (the selector is then refused) or no
    span is registered under the name, and then leaves the page as it was.
    Otherwise the panel shows [value] under [name], shows what it showed
    under every other such name, and keeps its slots, their order and their
    labels. *)
Theorem updateInfoParameterValue_writes_one (name : string)
    (value : JSNumber) (p : Page) :
  name_chars name = true ->
  let r := updateInfoParameterValue name value p in
  (fst r = None <->
   is_identifier (name ++ "-value") = false \/ ¬ registeredName name p) /\
  (fst r = None -> snd r = p) /\
  (fst r <> None ->
   shown name (snd r) = Some (Some value) /\
   (forall other, name_chars other = true -> other <> name ->
      shown other (snd r) = shown other p) /\
   span_name <$> parameter_readout (snd r)
     = span_name <$> parameter_readout p /\
   label <$> parameter_readout (snd r) = label <$> parameter_readout p /\
   info_readout (snd r) = info_readout p /\
   lastFrameTime (snd r) = lastFrameTime p).
Proof.
  intros _. cbn zeta.
  pose proof (updateInfoParameterValue_cases name value p) as H.
  destruct (updateInfoParameterValue name value p) as [[u |] p']; cbn.
  - destruct H as (Hid & Hreg & _ & Hs & Ho & H).
    split; [| split; [done |]].
    + split; [done |]. intros [Hno | Hno]; [congruence | by destruct Hno].
    + intros _. split; [done |]. split; [| done].
      intros other _. apply Ho.
  - destruct H as (Hwhy & _ & ->).
    split; [done |]. split; [done |]. by intros [].
Qed.

Lemma updateInfoParameterValue_writes_one_witness :
  shown "fps" (snd (updateInfoParameterValue "fps" (Finite 60) (scriptPage 0)))
  = Some (Some (Finite 60)).
Proof.
  refine (proj1 (proj2 (proj2
            (updateInfoParameterValue_writes_one "fps" (Finite 60)
               (scriptPage 0) eq_refl)) _)).
  discriminate.
Defined.

(** X15: after [addInfoReadoutParameterItem(name, prettyName)], for a name
    of letters, digits, [_] and [-] and a label without markup, a span is
    registered under the name.  Whether it can be written depends on the
    name alone.  When [name-value] is not an identifier (as for [2d]), the
    update of that name throws and leaves the page as it was, although the
    span was just added.  When it is one, the update does not throw and the
    panel then shows the value; the panel showed an empty span before the
    update when the name was new, and when the name was registered before,
    it is the earlier span that is written: the paragraph just added, the
    last of the panel, is still empty after the update. *)
Theorem add_then_update (name : string) (lbl : option string)
    (value : JSNumber) (p : Page) :
  name_chars name = true ->
  html_text (default name lbl) = true ->
  let p1 := snd (addInfoReadoutParameterItem name lbl p) in
  let r := updateInfoParameterValue name value p1 in
  registeredName name p1 /\
  (is_identifier (name ++ "-value") = false -> fst r = None /\ snd r = p1) /\
  (is_identifier (name ++ "-value") = true ->
   fst r = Some tt /\
   shown name (snd r) = Some (Some value) /\
   (¬ registeredName name p -> shown name p1 = Some None) /\
   (registeredName name p ->
    last (parameter_readout (snd r))
    = Some (mkSlot ("param-" ++ name) (default name lbl) (name ++ "-value")
              None))).
Proof.
  intros _ _. cbn zeta.
  set (new := mkSlot ("param-" ++ name) (default name lbl) (name ++ "-value")
                None).
  set (p1 := snd (addInfoReadoutParameterItem name lbl p)).
  assert (Hp1 : parameter_readout p1 = parameter_readout p ++ [new]) by done.
  assert (Hreg1 : registeredName name p1).
  { unfold registeredName. rewrite Hp1, fmap_app.
    apply elem_of_app. right. cbn. apply list_elem_of_singleton. done. }
  split; [exact Hreg1 |].
  pose proof (updateInfoParameterValue_cases name value p1) as Hcases.
  split.
  { intros Hid.
    destruct (updateInfoParameterValue name value p1) as [[u |] p']; cbn.
    - destruct Hcases as (Hid' & _). congruence.
    - by destruct Hcases as (_ & _ & ->). }
  intros Hid.
  pose proof (registeredName_find name p) as Hreg.
  assert (Hfound : exists i s,
             list_find (λ s, span_name s = (name ++ "-value")%string)
               (parameter_readout p1) = Some (i, s) /\
             (¬ registeredName name p ->
              i = length (parameter_readout p) /\ s = new) /\
             (registeredName name p ->
              (i < length (parameter_readout p))%nat)).
  { rewrite Hp1.
    destruct (list_find (λ s, span_name s = (name ++ "-value")%string)
                (parameter_readout p)) as [[i s] |] eqn:Hfind.
    - exists i, s. split; [by erewrite list_find_app_l |].
      split; [intros Hno; exfalso; apply Hno, Hreg; done |]. intros _.
      apply list_find_Some in Hfind as (Hi & _). by eapply lookup_lt_Some.
    - eexists _, _. split.
      + rewrite list_find_app_r by done. cbn. rewrite decide_True by done.
        reflexivity.
      + cbn. split; [intros _; split; [lia | done] |].
        intros Hyes%Hreg. by destruct Hyes. }
  destruct Hfound as (i & s & Hfind & Hnew & Hold).
  clear Hcases.
  unfold updateInfoParameterValue, getChildElementsByName.
  rewrite Hid, Hfind. cbn [fst snd]. split; [done |].
  pose proof Hfind as (Hi & Hs & _)%list_find_Some.
  split; [| split].
  - unfold shown, getChildElementsByName.
    cbn [parameter_readout]. rewrite Hid.
    by erewrite list_find_insert_found.
  - intros Hnone. destruct (Hnew Hnone) as [-> ->].
    unfold shown, getChildElementsByName. by rewrite Hid, Hfind.
  - intros Hsome. specialize (Hold Hsome). cbn [parameter_readout].
    rewrite Hp1, insert_app_l by done. apply last_snoc.
Qed.

Lemma add_then_update_witness :
  let p1 := snd (addInfoReadoutParameterItem "2d" None (scriptPage 0)) in
  registeredName "2d" p1 /\
  fst (updateInfoParameterValue "2d" (Finite 60) p1) = None /\
  snd (updateInfoParameterValue "2d" (Finite 60) p1) = p1.
Proof.
  pose proof (add_then_update "2d" None (Finite 60) (scriptPage 0)
                eq_refl eq_refl) as (Hreg & Hthrows & _).
  split; [exact Hreg |]. exact (Hthrows eq_refl).
Defined.

(** The same on a name that can be selected: the second paragraph
    registered under [fps] is never the one written. *)
Example add_then_update_fps :
  last (parameter_readout
          (snd (updateInfoParameterValue "fps" (Finite 60)
                  (snd (addInfoReadoutParameterItem "fps" None
                          (scriptPage 0))))))
  = Some (mkSlot "param-fps" "fps" "fps-value" None).
Proof. reflexivity. Qed.

(** ** The readout updater *)




(** X17: when [d > 0] milliseconds have elapsed, the frame rate the
    callback hands to the panel, [Math.round(E.calcFPS())], is the whole
    number [(2000 + d) / (2 d)] rounded down; it is 0 as soon as more than
    two seconds have elapsed. *)
Theorem rounded_fps (now1 now2 : Z) (p : Page) :
  (lastFrameTime p < now1)%Z ->
  let d := (now1 - lastFrameTime p)%Z in
  (Math_round <$> fst (calcFPS now1 now2 p)
   = Some (Finite (inject_Z ((2000 + d) / (2 * d))))) /\
  ((2000 < d)%Z ->
   Math_round <$> fst (calcFPS now1 now2 p) = Some (Finite 0)).
Proof.
  intros Hlt d.
  assert (Hmain : Math_round <$> fst (calcFPS now1 now2 p)
                  = Some (Finite (inject_Z ((2000 + d) / (2 * d))))).
  { unfold calcFPS. cbn [fst]. fold d.
    assert (Hd : (0 < d)%Z) by (subst d; lia).
    destruct d as [| q | q] eqn:Hq; [lia | | lia].
    assert (Hne : ~ inject_Z (Z.pos q) == 0).
    { unfold Qeq. cbn. lia. }
    destruct (Qeq_bool (inject_Z (Z.pos q) / 1000) 0) eqn:Hb.
    { apply Qeq_bool_iff in Hb. exfalso. apply Hne.
      unfold Qdiv in Hb. change (/ 1000) with (1 # 1000) in Hb. lra. }
    cbn [fmap option_fmap option_map Math_round]. do 3 f_equal.
    assert (Heq : 1 / (inject_Z (Z.pos q) / 1000) + (1 # 2)
                  == (2000 + Z.pos q) # (2 * q)).
    { rewrite (Qmake_Qdiv (2000 + Z.pos q) (2 * q)).
      rewrite inject_Z_plus.
      change (Z.pos (2 * q)) with (2 * Z.pos q)%Z. rewrite inject_Z_mult.
      change (inject_Z 2000) with 2000. change (inject_Z 2) with 2.
      field. exact Hne. }
    rewrite Heq. reflexivity. }
  split; [exact Hmain |].
  intros Hbig. rewrite Hmain, Z.div_small by lia. reflexivity.
Qed.

Lemma rounded_fps_witness :
  Math_round <$> fst (calcFPS 16 17 (scriptPage 0)) = Some (Finite 63).
Proof.
  refine (proj1 (rounded_fps 16 17 (scriptPage 0) _)).
  reflexivity.
Defined.

(** ** What the script sets once *)

Lemma settings_lifecycle stepSimulation a e' fl :
  lifecycle stepSimulation a e' fl ->
  gravity (physicsUniverse e') = gravity (physicsUniverse (E a)) /\
  renderCallback e' = renderCallback (E a).
Proof.
  intros Hstep. destruct Hstep as [| k rp | | Hfl | Hfl | deltaTime].
  - done.
  - by destruct k.
  - pose proof (removeLoop_spec (fun m => negb (is_floor m)) (E a))
      as (_ & _ & _ & (_ & Hc & _ & _ & _ & Hg)).
    done.
  - pose proof (removeLoop_spec is_floor (E a))
      as (_ & _ & _ & (_ & Hc & _ & _ & _ & Hg)).
    done.
  - by rewrite makeFloor_exec.
  - pose proof (render_spec stepSimulation deltaTime (E a))
      as (_ & _ & Hp & _ & _ & Hc & _).
    cbn zeta in Hp, Hc. by rewrite Hp, Hc.
Qed.

(** X18: the gravity the script sets, 150 downwards, and the callback it
    installs are in force in every state the page can reach: no key, no
    timer tick and no frame changes either, whatever the physics step
    does. *)
Theorem settings_are_kept (random : nat -> Q)
    (stepSimulation :
       Q -> nat -> btDiscreteDynamicsWorld ->
       gmap nat btRigidBody -> gmap nat btRigidBody)
    (deltaTime : Q) (evs : list Event) :
  let e := E (run random stepSimulation evs (main stepSimulation deltaTime)) in
  gravity (physicsUniverse e) = Some (mkVec3 0 (-150) 0) /\
  renderCallback e = Some readoutCallback.
Proof.
  cbn zeta.
  assert (Hmain :
    gravity (physicsUniverse (E (main stepSimulation deltaTime)))
      = Some (mkVec3 0 (-150) 0) /\
    renderCallback (E (main stepSimulation deltaTime))
      = Some readoutCallback).
  { unfold main. cbn [E]. rewrite !exec_bind, makeFloor_exec.
    split; reflexivity. }
  revert Hmain. generalize (main stepSimulation deltaTime).
  induction evs as [| ev evs IH]; intros a Ha; [exact Ha |].
  cbn [run fold_left]. apply IH.
  pose proof (settings_lifecycle stepSimulation a _ _
                (handle_lifecycle random stepSimulation ev a)) as [Hg Hc].
  by rewrite Hg, Hc.
Qed.

(** ** The parameter ranges in rounded arithmetic *)

Ltac rep_tac fl fl_rounding n k :=
  apply (dyadic_representable fl fl_rounding); dyadic_tac n k.

(** X19: in rounded arithmetic, one parameter set has its color in
    [0, 0xffffff], its scale in [0.75, 1.75], its radius equal to the
    rounded product of the scale and 0.75, its length in [1, 3], x and z in
    [-5, 0], y in [20, 45], its mass in [5, 11.75], the rotation's x, y, z
    in [0, 360] and w = 1, all ends included; ten draws are consumed. *)
Theorem params_in_closed_ranges (fl : Q -> Q) (fl_rounding : rounding fl)
    (random : nat -> Q) (random_unit : unit_interval random) (n : nat) :
  let rp := eval (Rounded.generateRandomObjectParams fl random) n in
  (0 <= randomColor rp /\ randomColor rp <= 16777215) /\
  (0.75 <= randomScale rp /\ randomScale rp <= 1.75) /\
  randomRadius rp = fl (randomScale rp * 0.75) /\
  (1 <= randomLength rp /\ randomLength rp <= 3) /\
  (-5 <= randomX rp /\ randomX rp <= 0) /\
  (20 <= randomY rp /\ randomY rp <= 45) /\
  (-5 <= randomZ rp /\ randomZ rp <= 0) /\
  (5 <= randomMass rp /\ randomMass rp <= 11.75) /\
  (0 <= qx (randomQuaternion rp) /\ qx (randomQuaternion rp) <= 360) /\
  (0 <= qy (randomQuaternion rp) /\ qy (randomQuaternion rp) <= 360) /\
  (0 <= qz (randomQuaternion rp) /\ qz (randomQuaternion rp) <= 360) /\
  qw (randomQuaternion rp) = 1 /\
  exec (Rounded.generateRandomObjectParams fl random) n = (n + 10)%nat.
Proof.
  cbv zeta.
  assert (Heval :
    eval (Rounded.generateRandomObjectParams fl random) n =
    let s := fl (0.75 + fl (random (1 + n)%nat * 1)) in
    mkRandomParams
      (fl (random n * 16777215)) s (fl (s * 0.75))
      (fl (1 + fl (random (2 + n)%nat * 2)))
      (fl (-5 + fl (random (3 + n)%nat * 5)))
      (fl (20 + fl (random (4 + n)%nat * 25)))
      (fl (-5 + fl (random (5 + n)%nat * 5)))
      (fl (5 + fl (random (6 + n)%nat * fl (5 + s))))
      (mkQuat (fl (0 + fl (random (7 + n)%nat * 360)))
         (fl (0 + fl (random (8 + n)%nat * 360)))
         (fl (random (9 + n)%nat * 360)) 1)) by reflexivity.
  rewrite Heval. clear Heval. params_simpl.
  assert (R0 : representable fl 0) by rep_tac fl fl_rounding 0%Z 0%nat.
  assert (R1 : representable fl 1) by rep_tac fl fl_rounding 1%Z 0%nat.
  assert (R2 : representable fl 2) by rep_tac fl fl_rounding 2%Z 0%nat.
  assert (R3 : representable fl (1 + 2)) by rep_tac fl fl_rounding 3%Z 0%nat.
  assert (R5 : representable fl 5) by rep_tac fl fl_rounding 5%Z 0%nat.
  assert (Rm5 : representable fl (-5))
    by rep_tac fl fl_rounding (-5)%Z 0%nat.
  assert (Rm0 : representable fl (-5 + 5))
    by rep_tac fl fl_rounding 0%Z 0%nat.
  assert (R20 : representable fl 20) by rep_tac fl fl_rounding 20%Z 0%nat.
  assert (R25 : representable fl 25) by rep_tac fl fl_rounding 25%Z 0%nat.
  assert (R45 : representable fl (20 + 25))
    by rep_tac fl fl_rounding 45%Z 0%nat.
  assert (R075 : representable fl 0.75) by rep_tac fl fl_rounding 3%Z 2%nat.
  assert (R175 : representable fl (0.75 + 1))
    by rep_tac fl fl_rounding 7%Z 2%nat.
  assert (R575 : representable fl 5.75) by rep_tac fl fl_rounding 23%Z 2%nat.
  assert (R675 : representable fl 6.75) by rep_tac fl fl_rounding 27%Z 2%nat.
  assert (R1175 : representable fl (5 + 6.75))
    by rep_tac fl fl_rounding 47%Z 2%nat.
  assert (R360 : representable fl 360) by rep_tac fl fl_rounding 360%Z 0%nat.
  assert (R0360 : representable fl (0 + 360))
    by rep_tac fl fl_rounding 360%Z 0%nat.
  assert (Rcol : representable fl 16777215)
    by rep_tac fl fl_rounding 16777215%Z 0%nat.
  pose proof (random_unit n) as [A0 A1].
  pose proof (random_unit (1 + n)%nat) as [B0 B1].
  pose proof (random_unit (2 + n)%nat) as [C0 C1].
  pose proof (random_unit (3 + n)%nat) as [D0 D1].
  pose proof (random_unit (4 + n)%nat) as [E0 E1].
  pose proof (random_unit (5 + n)%nat) as [F0 F1].
  pose proof (random_unit (6 + n)%nat) as [G0 G1].
  pose proof (random_unit (7 + n)%nat) as [H0 H1].
  pose proof (random_unit (8 + n)%nat) as [I0 I1].
  pose proof (random_unit (9 + n)%nat) as [J0 J1].
  assert (le01 : 0 <= 1) by lra. assert (le11 : 1 <= 1) by lra.
  pose proof (randomFloat_between fl fl_rounding _ 1 1 0.75 B0 B1 le01 le11
                R0 R1 R075 R175) as [Hs0 Hs1].
  set (s := fl (0.75 + fl (random (1 + n)%nat * 1))) in *. clearbody s.
  assert (Hw : 5.75 <= fl (5 + s) /\ fl (5 + s) <= 6.75)
    by (apply (rounding_between fl fl_rounding); [done | done | lra | lra]).
  set (w := fl (5 + s)) in *. clearbody w. destruct Hw as [Hw0 Hw1].
  assert (Hcol : 0 <= fl (random n * 16777215) /\
                 fl (random n * 16777215) <= 16777215).
  { apply (rounding_between fl fl_rounding 0 16777215); [done | done | |].
    - apply Qmult_le_0_compat; [done | discriminate].
    - assert (H : 0 <= (1 - random n) * 16777215)
        by (apply Qmult_le_0_compat; [lra | discriminate]).
      lra. }
  assert (Hqz : 0 <= fl (random (9 + n)%nat * 360) /\
                fl (random (9 + n)%nat * 360) <= 360).
  { apply (rounding_between fl fl_rounding 0 360); [done | done | |].
    - apply Qmult_le_0_compat; [done | discriminate].
    - assert (H : 0 <= (1 - random (9 + n)%nat) * 360)
        by (apply Qmult_le_0_compat; [lra | discriminate]).
      lra. }
  assert (le02 : 0 <= 2) by lra. assert (le22 : 2 <= 2) by lra.
  assert (le05 : 0 <= 5) by lra. assert (le55 : 5 <= 5) by lra.
  assert (le025 : 0 <= 25) by lra. assert (le2525 : 25 <= 25) by lra.
  assert (le0360 : 0 <= 360) by lra. assert (le360 : 360 <= 360) by lra.
  assert (le0w : 0 <= w) by lra.
  pose proof (randomFloat_between fl fl_rounding _ 2 2 1 C0 C1 le02 le22
                R0 R2 R1 R3) as [Hl0 Hl1].
  pose proof (randomFloat_between fl fl_rounding _ 5 5 (-5) D0 D1 le05 le55
                R0 R5 Rm5 Rm0) as [Hx0 Hx1].
  pose proof (randomFloat_between fl fl_rounding _ 25 25 20 E0 E1 le025
                le2525 R0 R25 R20 R45) as [Hy0 Hy1].
  pose proof (randomFloat_between fl fl_rounding _ 5 5 (-5) F0 F1 le05 le55
                R0 R5 Rm5 Rm0) as [Hz0 Hz1].
  pose proof (randomFloat_between fl fl_rounding _ w 6.75 5 G0 G1 le0w Hw1
                R0 R675 R5 R1175) as [Hm0 Hm1].
  pose proof (randomFloat_between fl fl_rounding _ 360 360 0 H0 H1 le0360
                le360 R0 R360 R0 R0360) as [Hqx0 Hqx1].
  pose proof (randomFloat_between fl fl_rounding _ 360 360 0 I0 I1 le0360
                le360 R0 R360 R0 R0360) as [Hqy0 Hqy1].
  split; [exact Hcol |].
  split; [split; lra |]. split; [reflexivity |].
  split; [split; lra |]. split; [split; lra |]. split; [split; lra |].
  split; [split; lra |]. split; [split; lra |]. split; [split; lra |].
  split; [split; lra |]. split; [exact Hqz |].
  split; [reflexivity |].
  unfold exec. cbn. lia.
Qed.

(** On binary64 numbers the upper end of the mass is reached when the
    draws for the scale and for the mass are the largest one. *)
Example randomMass_reaches_end_binary64 :
  Binary64.mass_at_end Binary64.top_draw Binary64.top_draw = true.
Proof. vm_compute. reflexivity. Qed.

Lemma params_in_closed_ranges_witness :
  let rp :=
    eval (Rounded.generateRandomObjectParams exact_arithmetic cyclic_random)
      0%nat in
  5 <= randomMass rp /\ randomMass rp <= 11.75.
Proof.
  exact (proj1 (proj2 (proj2 (proj2 (proj2 (proj2 (proj2 (proj2
           (params_in_closed_ranges exact_arithmetic
              exact_arithmetic_rounding cyclic_random cyclic_random_unit
              0%nat))))))))).
Defined.
